(** * configstore: a shallow embedding of the provider registry
      (configstore.go) and of its built-in providers

    Go strings are byte strings: they are modelled by [string], whose
    characters are the 8-bit [ascii].  Pointers ([*Store],
    [*InMemoryProvider], [*EnvVariableProvider], channels) are addresses
    into the heaps of a [World]; a Go function that mutates shared objects
    or may panic is a computation in the monad [M]. Mutexes are not
    modelled: every operation below is executed atomically. *)

From Stdlib Require Import ZArith Ascii String Lia.
From stdpp Require Import gmap strings list.

Open Scope string_scope.
Open Scope list_scope.
Open Scope Z_scope.

(** ** Values *)

(** A Go [error] is represented by its message. *)
Definition error := string.

Inductive result (A : Type) : Type :=
| Ok (a : A)
| Err (e : error).
Arguments Ok {A} a.
Arguments Err {A} e.

Definition addr := nat.

(** Modelled from the spec: the [Item] struct and its constructor [NewItem],
    whose declarations are missing. Section 3 of the specification gives an
    item as a key/value/priority triple, and the struct literal in
    [EnvVariableProvider.Items] names the three fields. *)
Record Item : Type := mkItem {
  key : string;
  value : string;
  priority : Z
}.

(** Modelled from the spec: [NewItem(key, value, priority)], the missing
    constructor, builds the item of these three fields. *)
Definition NewItem (k v : string) (p : Z) : Item :=
  {| key := k; value := v; priority := p |}.

(** Modelled from the spec: [ItemList], whose declaration is missing; the
    package builds it only through the struct literal [ItemList{Items: ...}]. *)
Record ItemList : Type := mkItemList { Items : list Item }.

Definition empty_ItemList : ItemList := {| Items := [] |}.

(** ** Providers

    [type Provider func() (ItemList, error)].  The closures this package
    builds are defunctionalised; what they do when called is given by
    [call_provider] further down. *)
Inductive Provider : Type :=
| ErrorProviderFn (err : error)
    (* func() (ItemList, error) { return ItemList{}, err } *)
| InMemoryItems (inmem : addr)
    (* the method value inmem.Items *)
| EnvVariableItems (provider : addr)
    (* the method value provider.Items *)
| ConstProvider (l : ItemList) (err : option error).
    (* any other provider that closes over no state of this package *)

(** ** The store *)

Record Store : Type := mkStore {
  providers : gmap string Provider;
  allowProviderOverride : bool;
  watchers : list addr
}.

(** [make(chan struct{}, n)]: the elements carry no data, so the buffer is
    the number of queued elements. *)
Record Chan : Type := mkChan {
  chan_cap : nat;
  chan_len : nat
}.

Record InMemoryProvider : Type := mkInMemoryProvider {
  items : list Item
}.

Record EnvVariableProvider : Type := mkEnvVariableProvider {
  inMemory : InMemoryProvider;
  bindings : gmap string string;
  env_priority : Z
}.

(** ** The operating system, as the package sees it *)

Record FileInfo : Type := mkFileInfo {
  Name : string;
  IsDir : bool;
  ModTime : Z
}.

Record FS : Type := mkFS {
  ReadDir : string -> result (list FileInfo);   (* ioutil.ReadDir *)
  ReadFile : string -> result string;           (* ioutil.ReadFile *)
  Stat : string -> result FileInfo              (* os.Stat *)
}.

(** The functions registered in [providerFactories].  [None] in the map
    below stands for a nil [func(string)]. *)
Inductive Factory : Type :=
| FactoryFile
| FactoryFileList
| FactoryFileTree
| FactoryCustom (id : nat).

(** The goroutine started by [file] with [refresh] set: the variables its
    closure captures. [poll_last] is the captured variable [last]. *)
Record Poller : Type := mkPoller {
  poll_store : addr;
  poll_filename : string;
  poll_fn : option (string -> result (list Item));
  poll_inmem : addr;
  poll_last : Z
}.

Record World : Type := mkWorld {
  stores : gmap addr Store;
  inmems : gmap addr InMemoryProvider;
  envps : gmap addr EnvVariableProvider;
  chans : gmap addr Chan;
  providerFactories : gmap string (option Factory);
  environ : list string;                 (* os.Environ() *)
  fs : FS;
  now : Z;                               (* time.Now() *)
  pollers : list Poller;
  logs : list string                     (* lines passed to LogInfo *)
}.

(** The package variable [_store]: assigned once, in [init]. *)
Definition _store : addr := 0%nat.

Definition set_stores (m : gmap addr Store) (w : World) : World :=
  mkWorld m (inmems w) (envps w) (chans w) (providerFactories w)
          (environ w) (fs w) (now w) (pollers w) (logs w).
Definition set_inmems (m : gmap addr InMemoryProvider) (w : World) : World :=
  mkWorld (stores w) m (envps w) (chans w) (providerFactories w)
          (environ w) (fs w) (now w) (pollers w) (logs w).
Definition set_envps (m : gmap addr EnvVariableProvider) (w : World) : World :=
  mkWorld (stores w) (inmems w) m (chans w) (providerFactories w)
          (environ w) (fs w) (now w) (pollers w) (logs w).
Definition set_chans (m : gmap addr Chan) (w : World) : World :=
  mkWorld (stores w) (inmems w) (envps w) m (providerFactories w)
          (environ w) (fs w) (now w) (pollers w) (logs w).
Definition set_providerFactories (m : gmap string (option Factory)) (w : World) : World :=
  mkWorld (stores w) (inmems w) (envps w) (chans w) m
          (environ w) (fs w) (now w) (pollers w) (logs w).
Definition set_environ (e : list string) (w : World) : World :=
  mkWorld (stores w) (inmems w) (envps w) (chans w) (providerFactories w)
          e (fs w) (now w) (pollers w) (logs w).
Definition set_fs (f : FS) (w : World) : World :=
  mkWorld (stores w) (inmems w) (envps w) (chans w) (providerFactories w)
          (environ w) f (now w) (pollers w) (logs w).
Definition set_pollers (l : list Poller) (w : World) : World :=
  mkWorld (stores w) (inmems w) (envps w) (chans w) (providerFactories w)
          (environ w) (fs w) (now w) l (logs w).
Definition set_logs (l : list string) (w : World) : World :=
  mkWorld (stores w) (inmems w) (envps w) (chans w) (providerFactories w)
          (environ w) (fs w) (now w) (pollers w) l.

(** ** The monad of package code: state, panics and blocking

    [Blocked] is the outcome of a goroutine that waits on a channel
    operation which nothing will complete. *)

Inductive Outcome (A : Type) : Type :=
| Done (a : A) (w : World)
| Panic (msg : string)
| Blocked.
Arguments Done {A} a w.
Arguments Panic {A} msg.
Arguments Blocked {A}.

Definition M (A : Type) : Type := World -> Outcome A.

Definition ret {A} (a : A) : M A := fun w => Done a w.
Definition bind {A B} (m : M A) (k : A -> M B) : M B :=
  fun w => match m w with
           | Done a w' => k a w'
           | Panic msg => Panic msg
           | Blocked => Blocked
           end.
Definition panic {A} (msg : string) : M A := fun _ => Panic msg.
Definition get : M World := fun w => Done w w.
Definition modify (f : World -> World) : M unit := fun w => Done tt (f w).

Notation "x <- c1 ;; c2" := (bind c1 (fun x => c2))
  (at level 100, c1 at next level, right associativity).
Notation "c1 ;;; c2" := (bind c1 (fun _ => c2))
  (at level 100, right associativity).

(** [for _, x := range l { body }] *)
Fixpoint for_range {A} (l : list A) (body : A -> M unit) : M unit :=
  match l with
  | [] => ret tt
  | x :: l' => body x ;;; for_range l' body
  end.

Definition nil_dereference : string :=
  "runtime error: invalid memory address or nil pointer dereference".

Definition load_store (s : addr) : M Store :=
  w <- get ;;
  match stores w !! s with
  | Some st => ret st
  | None => panic nil_dereference
  end.

Definition save_store (s : addr) (st : Store) : M unit :=
  modify (fun w => set_stores (<[s := st]> (stores w)) w).

Definition LogInfo (line : string) : M unit :=
  modify (fun w => set_logs (logs w ++ [line]) w).

(** ** configstore.go *)

Definition Store_Clear (s : addr) : M addr :=
  st <- load_store s ;;
  save_store s {| providers := ∅;
                  allowProviderOverride := false;
                  watchers := watchers st |} ;;;
  ret s.

Definition Store_RegisterProvider (s : addr) (name : string) (f : Provider) : M unit :=
  st <- load_store s ;;
  let ok := bool_decide (is_Some (providers st !! name)) in
  if ok && negb (allowProviderOverride st)
  then panic ("conflict on configuration provider: " +:+ name)
  else save_store s {| providers := <[name := f]> (providers st);
                       allowProviderOverride := allowProviderOverride st;
                       watchers := watchers st |}.

Definition Store_AllowProviderOverride (s : addr) : M unit :=
  LogInfo "configstore: ATTENTION: PROVIDER OVERRIDE ALLOWED/ENABLED" ;;;
  st <- load_store s ;;
  save_store s {| providers := providers st;
                  allowProviderOverride := true;
                  watchers := watchers st |}.

Definition RegisterProviderFactory (name : string) (f : option Factory) : M unit :=
  w <- get ;;
  match providerFactories w !! name with
  | Some _ => panic ("conflict on configuration provider factory: " +:+ name)
  | None => modify (set_providerFactories (<[name := f]> (providerFactories w)))
  end.

(** ** The Go standard library, as far as the package uses it *)

Definition byte (c : ascii) : Z := Z.of_N (N_of_ascii c).

Definition byte_in (lo hi : Z) (c : ascii) : bool :=
  (lo <=? byte c) && (byte c <=? hi).

(** [utf8.RuneSelf] and [utf8.RuneError] *)
Definition RuneSelf : Z := 128.
Definition RuneError : Z := 65533.

Definition is_ascii_byte (c : ascii) : bool := byte c <? RuneSelf.

Fixpoint bytes (s : string) : list ascii :=
  match s with
  | EmptyString => []
  | String c r => c :: bytes r
  end.

Fixpoint of_bytes (l : list ascii) : string :=
  match l with
  | [] => EmptyString
  | c :: r => String c (of_bytes r)
  end.

(** What the library does with text outside ASCII depends on the Unicode
    tables of the Go release; these parts, the path separator and the YAML
    decoder are parameters of the model. *)
Record GoLib : Type := mkGoLib {
  (* unicode.Is(unicode.Upper, r), used for r > unicode.MaxLatin1 *)
  unicode_Upper : Z -> bool;
  (* strings.TrimFunc(s, unicode.IsSpace) *)
  TrimFunc_IsSpace : string -> string;
  (* strings.TrimRightFunc(s, unicode.IsSpace) *)
  TrimRightFunc_IsSpace : string -> string;
  (* strings.Map(unicode.ToLower, s) *)
  Map_ToLower : string -> string;
  (* filepath.Join(dir, name) *)
  filepath_Join : string -> string -> string;
  (* yaml.Unmarshal(b, &vals) on vals := []Item{} *)
  yaml_Unmarshal : string -> result (list Item)
}.

(** [strings.HasPrefix] and [strings.TrimPrefix] *)
Definition strings_HasPrefix (s pfx : string) : bool := String.prefix pfx s.

Definition strings_TrimPrefix (s pfx : string) : string :=
  if strings_HasPrefix s pfx
  then String.substring (String.length pfx) (String.length s - String.length pfx) s
  else s.

(** [strings.Replace(s, old, new, -1)] for a one-byte [old]. *)
Fixpoint strings_Replace (s : string) (old : ascii) (new : string) : string :=
  match s with
  | EmptyString => EmptyString
  | String c r =>
      if Ascii.eqb c old then new +:+ strings_Replace r old new
      else String c (strings_Replace r old new)
  end.

(** [strings.Index(s, sep)] splits [s] around the first [sep], a one-byte
    separator: the text before it and the text after it. *)
Fixpoint cut_first (sep : ascii) (s : string) : option (string * string) :=
  match s with
  | EmptyString => None
  | String c r =>
      if Ascii.eqb c sep then Some (EmptyString, r)
      else match cut_first sep r with
           | Some (a, b) => Some (String c a, b)
           | None => None
           end
  end.

(** [strings.SplitN(s, sep, 2)] *)
Definition strings_SplitN_2 (s : string) (sep : ascii) : list string :=
  match cut_first sep s with
  | Some (a, b) => [a; b]
  | None => [s]
  end.

(** [strings.Split(s, sep)] *)
Fixpoint strings_Split (s : string) (sep : ascii) : list string :=
  match s with
  | EmptyString => [EmptyString]
  | String c r =>
      if Ascii.eqb c sep then EmptyString :: strings_Split r sep
      else match strings_Split r sep with
           | p :: ps => String c p :: ps
           | [] => [String c EmptyString]
           end
  end.

(** [asciiSpace] of package strings: tab, newline, vertical tab, form feed,
    carriage return, space. *)
Definition asciiSpace (c : ascii) : bool :=
  byte_in 9 13 c || (byte c =? 32).

Section StringsUnicode.
Context (go : GoLib).

(** The second loop of [strings.TrimSpace], on the bytes of
    [s[start:stop]] in reverse order. *)
Fixpoint TrimSpace_stop (rev_s : list ascii) : string :=
  match rev_s with
  | [] => EmptyString
  | c :: r =>
      if RuneSelf <=? byte c
      then TrimRightFunc_IsSpace go (of_bytes (rev rev_s))
      else if asciiSpace c then TrimSpace_stop r
      else of_bytes (rev rev_s)
  end.

(** [strings.TrimSpace]: the first loop, then the second. *)
Fixpoint strings_TrimSpace (s : string) : string :=
  match s with
  | EmptyString => EmptyString
  | String c r =>
      if RuneSelf <=? byte c then TrimFunc_IsSpace go s
      else if asciiSpace c then strings_TrimSpace r
      else TrimSpace_stop (rev (bytes s))
  end.

Definition lower_byte (c : ascii) : ascii :=
  if byte_in 65 90 c then ascii_of_N (N_of_ascii c + 32) else c.

(** [strings.ToLower] *)
Definition strings_ToLower (s : string) : string :=
  if forallb is_ascii_byte (bytes s)
  then of_bytes (map lower_byte (bytes s))
  else Map_ToLower go s.

(** [unicode.IsUpper]: the Latin-1 property table, then the range table. *)
Definition unicode_IsUpper (r : Z) : bool :=
  if (0 <=? r) && (r <=? 255)
  then (65 <=? r) && (r <=? 90)
       || (192 <=? r) && (r <=? 214)
       || (216 <=? r) && (r <=? 222)
  else unicode_Upper go r.

End StringsUnicode.

(** [utf8.DecodeRuneInString], the rune only. [utf8_first] is the table
    [first]: [None] for the invalid lead bytes (xx), otherwise the size of
    the sequence and the range accepted for its second byte. *)
Definition utf8_first (s0 : Z) : option (Z * (Z * Z)) :=
  if s0 <? 194 then None
  else if s0 <=? 223 then Some (2, (128, 191))
  else if s0 =? 224 then Some (3, (160, 191))
  else if s0 <=? 236 then Some (3, (128, 191))
  else if s0 =? 237 then Some (3, (128, 159))
  else if s0 <=? 239 then Some (3, (128, 191))
  else if s0 =? 240 then Some (4, (144, 191))
  else if s0 <=? 243 then Some (4, (128, 191))
  else if s0 =? 244 then Some (4, (128, 143))
  else None.

Definition continuation (b : Z) : bool := (128 <=? b) && (b <=? 191).

Definition utf8_DecodeRuneInString (s : string) : Z :=
  match bytes s with
  | [] => RuneError
  | c0 :: rest =>
      let s0 := byte c0 in
      if s0 <? RuneSelf then s0
      else match utf8_first s0 with
      | None => RuneError
      | Some (sz, (lo, hi)) =>
          if Z.of_nat (length (c0 :: rest)) <? sz then RuneError
          else match map byte rest with
          | s1 :: tl =>
              if (s1 <? lo) || (hi <? s1) then RuneError
              else if sz <=? 2
              then Z.lor (Z.shiftl (Z.land s0 31) 6) (Z.land s1 63)
              else match tl with
              | s2 :: tl' =>
                  if negb (continuation s2) then RuneError
                  else if sz <=? 3
                  then Z.lor (Z.lor (Z.shiftl (Z.land s0 15) 12)
                                    (Z.shiftl (Z.land s1 63) 6))
                             (Z.land s2 63)
                  else match tl' with
                  | s3 :: _ =>
                      if negb (continuation s3) then RuneError
                      else Z.lor (Z.lor (Z.lor (Z.shiftl (Z.land s0 7) 18)
                                               (Z.shiftl (Z.land s1 63) 12))
                                        (Z.shiftl (Z.land s2 63) 6))
                                 (Z.land s3 63)
                  | [] => RuneError
                  end
              | [] => RuneError
              end
          | [] => RuneError
          end
      end
  end.

(** [a[i]] on a slice of strings, with the run-time bounds check. *)
Definition index_string (a : list string) (i : nat) : M string :=
  match a !! i with
  | Some x => ret x
  | None => panic "runtime error: index out of range"
  end.

(** [os.Getenv]: the value of the first entry for [key], or the empty
    string. *)
Fixpoint os_Getenv (env : list string) (k : string) : string :=
  match env with
  | [] => EmptyString
  | e :: rest =>
      match cut_first "=" e with
      | Some (variable, v) => if String.eqb variable k then v else os_Getenv rest k
      | None => os_Getenv rest k
      end
  end.

(** [os.Unsetenv]: the entries of [k] leave the environment. *)
Definition os_Unsetenv (k : string) : M unit :=
  modify (fun w =>
    set_environ
      (List.filter (fun e => match cut_first "=" e with
                             | Some (variable, _) => negb (String.eqb variable k)
                             | None => true
                             end) (environ w)) w).

Definition ConfigEnvVar : string := "CONFIGURATION_FROM".

(** *** Watchers *)

(** [make(chan struct{}, n)] *)
Definition make_chan (n : nat) : M addr :=
  w <- get ;;
  let ch := fresh (dom (chans w)) in
  modify (set_chans (<[ch := {| chan_cap := n; chan_len := 0 |}]> (chans w))) ;;;
  ret ch.

(** The send statement [ch <- struct{}{}]: it waits while the buffer is
    full (and forever on a nil channel). *)
Definition chan_send (ch : addr) : M unit :=
  w <- get ;;
  match chans w !! ch with
  | Some c =>
      if (chan_len c <? chan_cap c)%nat
      then modify (set_chans (<[ch := {| chan_cap := chan_cap c;
                                         chan_len := S (chan_len c) |}]> (chans w)))
      else fun _ => Blocked
  | None => fun _ => Blocked
  end.

(** [select { case ch <- struct{}{}: default: }] *)
Definition select_send_default (ch : addr) : M unit :=
  w <- get ;;
  match chans w !! ch with
  | Some c =>
      if (chan_len c <? chan_cap c)%nat
      then modify (set_chans (<[ch := {| chan_cap := chan_cap c;
                                         chan_len := S (chan_len c) |}]> (chans w)))
      else ret tt
  | None => ret tt
  end.

(** The receive [<-ch] of a consumer. *)
Definition chan_recv (ch : addr) : M unit :=
  w <- get ;;
  match chans w !! ch with
  | Some c =>
      match chan_len c with
      | S n => modify (set_chans (<[ch := {| chan_cap := chan_cap c;
                                             chan_len := n |}]> (chans w)))
      | O => fun _ => Blocked
      end
  | None => fun _ => Blocked
  end.

Definition Store_Watch (s : addr) : M addr :=
  newCh <- make_chan 1 ;;
  st <- load_store s ;;
  save_store s {| providers := providers st;
                  allowProviderOverride := allowProviderOverride st;
                  watchers := watchers st ++ [newCh] |} ;;;
  ret newCh.

Definition Store_NotifyWatchers (s : addr) : M unit :=
  st <- load_store s ;;
  for_range (watchers st) select_send_default.

(** [New]: a fresh [Store], cleared. *)
Definition New : M addr :=
  w <- get ;;
  let s := fresh (dom (stores w)) in
  save_store s {| providers := ∅; allowProviderOverride := false; watchers := [] |} ;;;
  Store_Clear s.

(** ** The built-in providers *)

Definition Store_ErrorProvider (s : addr) (name : string) (err : error) : M unit :=
  Store_RegisterProvider s name (ErrorProviderFn err).

Definition load_inmem (inmem : addr) : M InMemoryProvider :=
  w <- get ;;
  match inmems w !! inmem with
  | Some p => ret p
  | None => panic nil_dereference
  end.

Definition InMemoryProvider_Add (inmem : addr) (s : list Item) : M addr :=
  p <- load_inmem inmem ;;
  modify (fun w => set_inmems (<[inmem := {| items := items p ++ s |}]> (inmems w)) w) ;;;
  ret inmem.

Definition InMemoryProvider_Items (inmem : addr) : M (ItemList * option error) :=
  p <- load_inmem inmem ;;
  ret ({| Items := items p |}, None).

Definition Store_InMemory (s : addr) (name : string) : M addr :=
  w <- get ;;
  let inmem := fresh (dom (inmems w)) in
  modify (set_inmems (<[inmem := {| items := [] |}]> (inmems w))) ;;;
  Store_RegisterProvider s name (InMemoryItems inmem) ;;;
  ret inmem.

Definition InMemory (name : string) : M addr := Store_InMemory _store name.

(** In [FileTree] and [file] the successful load calls the package-level
    [InMemory], which registers in [_store], while the error paths call
    [s.ErrorProvider]. *)

Section Loaders.
Context (go : GoLib).

Definition readItem (fsys : FS) (path basename itemKey : string) : result Item :=
  match ReadFile fsys path with
  | Err err => Err err
  | Ok content =>
      let first := utf8_DecodeRuneInString basename in
      let priority := if unicode_IsUpper go first then 10 else 5 in
      Ok (NewItem itemKey content priority)
  end.

Definition nested_directory_error (basename name : string) : error :=
  "subdir " +:+ basename +:+ ": encountered nested directory " +:+ name
    +:+ ", max 1 level of nesting".

(** The loop of [browseDir] over the listing [files]. *)
Fixpoint browseDir_files (fsys : FS) (items : list Item) (path basename : string)
         (files : list FileInfo) : list Item * option error :=
  match files with
  | [] => (items, None)
  | f :: rest =>
      let filename := filepath_Join go path (Name f) in
      if IsDir f
      then (items, Some (nested_directory_error basename (Name f)))
      else match readItem fsys filename (Name f) basename with
           | Err err => (items, Some err)
           | Ok it => browseDir_files fsys (items ++ [it]) path basename rest
           end
  end.

Definition browseDir (fsys : FS) (items : list Item) (path basename : string)
  : list Item * option error :=
  match ReadDir fsys path with
  | Err err => (items, Some err)
  | Ok files => browseDir_files fsys items path basename files
  end.

Definition readFile (fsys : FS) (filename : string)
           (fn : option (string -> result (list Item))) : result (list Item) :=
  match ReadFile fsys filename with
  | Err err => Err err
  | Ok b =>
      match fn with
      | Some f => f b
      | None => yaml_Unmarshal go b
      end
  end.

(** The loop of [FileTree] over the listing [files]: the error that ends
    the load, or the items collected. *)
Fixpoint FileTree_files (fsys : FS) (dirname : string) (items : list Item)
         (files : list FileInfo) : result (list Item) :=
  match files with
  | [] => Ok items
  | f :: rest =>
      let filename := filepath_Join go dirname (Name f) in
      if IsDir f
      then match browseDir fsys items filename (Name f) with
           | (_, Some err) => Err err
           | (items', None) => FileTree_files fsys dirname items' rest
           end
      else match readItem fsys filename (Name f) (Name f) with
           | Err err => Err err
           | Ok it => FileTree_files fsys dirname (items ++ [it]) rest
           end
  end.

Definition Store_FileTree (s : addr) (dirname : string) : M unit :=
  if String.eqb dirname "" then ret tt
  else
    let providername := "filetree:" +:+ dirname in
    w <- get ;;
    match ReadDir (fs w) dirname with
    | Err err => Store_ErrorProvider s providername err
    | Ok files =>
        match FileTree_files (fs w) dirname [] files with
        | Err err => Store_ErrorProvider s providername err
        | Ok items =>
            inmem <- InMemory providername ;;
            for_range items (fun it => InMemoryProvider_Add inmem [it] ;;; ret tt)
        end
    end.

Definition FileTree (dirname : string) : M unit := Store_FileTree _store dirname.

Definition Store_file (s : addr) (filename : string) (refresh : bool)
           (fn : option (string -> result (list Item))) : M unit :=
  if String.eqb filename "" then ret tt
  else
    let providername := "file:" +:+ filename in
    w <- get ;;
    let last := now w in
    match readFile (fs w) filename fn with
    | Err err => Store_ErrorProvider s providername err
    | Ok vals =>
        inmem <- InMemory providername ;;
        LogInfo ("Configuration from file: " +:+ filename) ;;;
        InMemoryProvider_Add inmem vals ;;;
        if refresh
        then modify (fun w' =>
               set_pollers (pollers w' ++ [{| poll_store := s;
                                              poll_filename := filename;
                                              poll_fn := fn;
                                              poll_inmem := inmem;
                                              poll_last := last |}]) w')
        else ret tt
    end.

Definition Store_File (s : addr) (filename : string) : M unit :=
  Store_file s filename false None.
Definition Store_FileRefresh (s : addr) (filename : string) : M unit :=
  Store_file s filename true None.
Definition File (filename : string) : M unit := Store_file _store filename false None.

Definition Store_FileList (s : addr) (dirname : string) : M unit :=
  if String.eqb dirname "" then ret tt
  else
    w <- get ;;
    match ReadDir (fs w) dirname with
    | Err err => Store_ErrorProvider s ("filelist:" +:+ dirname) err
    | Ok files =>
        for_range files (fun file => Store_File s (filepath_Join go dirname (Name file)))
    end.

Definition FileList (dirname : string) : M unit := Store_FileList _store dirname.

(** *** The refresh goroutine

    One iteration of [for range ticker.C { ... }].  The report says how
    far the iteration went; the goroutine itself only keeps [last]. *)
Inductive TickReport : Type :=
| StatFailed        (* os.Stat failed: continue *)
| NotModified       (* ModTime not after last: continue *)
| ReadFailed        (* readFile was called and failed: continue *)
| Reloaded.         (* readFile was called, items replaced, watchers notified *)

Definition poll_tick (p : Poller) : M (Poller * TickReport) :=
  w <- get ;;
  match Stat (fs w) (poll_filename p) with
  | Err _ => ret (p, StatFailed)
  | Ok finfo =>
      if ModTime finfo >? poll_last p
      then
        let p' := {| poll_store := poll_store p;
                     poll_filename := poll_filename p;
                     poll_fn := poll_fn p;
                     poll_inmem := poll_inmem p;
                     poll_last := ModTime finfo |} in
        match readFile (fs w) (poll_filename p) (poll_fn p) with
        | Err _ => ret (p', ReadFailed)
        | Ok vals =>
            modify (fun w' => set_inmems (<[poll_inmem p := {| items := vals |}]> (inmems w')) w') ;;;
            Store_NotifyWatchers (poll_store p) ;;;
            ret (p', Reloaded)
        end
      else ret (p, NotModified)
  end.

(** *** The environment provider *)

Inductive EnvVariableOptions : Type :=
| WithPriority (p : Z)
| WithAutomaticBinding (prefix keySeparator : string)
| CustomOption (f : EnvVariableProvider -> EnvVariableProvider).

Definition load_envp (a : addr) : M EnvVariableProvider :=
  w <- get ;;
  match envps w !! a with
  | Some p => ret p
  | None => panic nil_dereference
  end.

Definition save_envp (a : addr) (p : EnvVariableProvider) : M unit :=
  modify (fun w => set_envps (<[a := p]> (envps w)) w).

Definition EnvVariableProvider_BindEnv (s : addr) (environmentVariable itemKey : string)
  : M unit :=
  p <- load_envp s ;;
  save_envp s {| inMemory := inMemory p;
                 bindings := <[environmentVariable := itemKey]> (bindings p);
                 env_priority := env_priority p |}.

Definition automatic_key (variable pfx keySeparator : string) : string :=
  let itemKey := strings_TrimPrefix variable pfx in
  let itemKey := strings_TrimPrefix itemKey "_" in
  let itemKey := strings_Replace itemKey "_" keySeparator in
  strings_ToLower go itemKey.

Definition apply_option (opt : EnvVariableOptions) (s : addr) : M unit :=
  match opt with
  | WithPriority p =>
      pr <- load_envp s ;;
      save_envp s {| inMemory := inMemory pr; bindings := bindings pr; env_priority := p |}
  | WithAutomaticBinding pfx keySeparator =>
      w <- get ;;
      for_range (environ w) (fun env =>
        let splittedEnv := strings_SplitN_2 env "=" in
        variable <- index_string splittedEnv 0 ;;
        if negb (strings_HasPrefix variable pfx) then ret tt
        else EnvVariableProvider_BindEnv s variable
               (automatic_key variable pfx keySeparator))
  | CustomOption f =>
      pr <- load_envp s ;;
      save_envp s (f pr)
  end.

Definition Store_EnvVariable (s : addr) (opts : list EnvVariableOptions) : M addr :=
  w <- get ;;
  let provider := fresh (dom (envps w)) in
  save_envp provider {| inMemory := {| items := [] |};
                        bindings := ∅;
                        env_priority := 0 |} ;;;
  for_range opts (fun opt => apply_option opt provider) ;;;
  Store_RegisterProvider s "environ" (EnvVariableItems provider) ;;;
  ret provider.

Definition EnvVariableProvider_Items (s : addr) : M (ItemList * option error) :=
  w <- get ;;
  let environ := environ w in
  p0 <- load_envp s ;;
  save_envp s {| inMemory := {| items := [] |};
                 bindings := bindings p0;
                 env_priority := env_priority p0 |} ;;;
  for_range environ (fun env =>
    let splittedEnv := strings_SplitN_2 env "=" in
    variable <- index_string splittedEnv 0 ;;
    value <- index_string splittedEnv 1 ;;
    p <- load_envp s ;;
    match bindings p !! variable with
    | Some k =>
        save_envp s {| inMemory := {| items := items (inMemory p) ++
                                        [{| key := k; value := value;
                                            priority := env_priority p |}] |};
                       bindings := bindings p;
                       env_priority := env_priority p |}
    | None => ret tt
    end) ;;;
  p <- load_envp s ;;
  ret ({| Items := items (inMemory p) |}, None).

(** Calling a [Provider]. *)
Definition call_provider (f : Provider) : M (ItemList * option error) :=
  match f with
  | ErrorProviderFn err => ret (empty_ItemList, Some err)
  | InMemoryItems inmem => InMemoryProvider_Items inmem
  | EnvVariableItems provider => EnvVariableProvider_Items provider
  | ConstProvider l err => ret (l, err)
  end.

(** *** InitFromEnvironment (configstore.go) *)

(** What a registered factory does with its argument; the factories of
    the embedding application are the parameter [custom]. *)
Context (custom : nat -> string -> M unit).

Definition run_factory (f : Factory) (arg : string) : M unit :=
  match f with
  | FactoryFile => File arg
  | FactoryFileList => FileList arg
  | FactoryFileTree => FileTree arg
  | FactoryCustom id => custom id arg
  end.

(** The name and argument of one directive, as the loop body computes
    them. *)
Definition directive (c : string) : string * string :=
  let parts := strings_SplitN_2 c ":" in
  let name := c in
  let arg := EmptyString in
  let '(name, arg) :=
    if (1 <? length parts)%nat
    then (nth 0 parts EmptyString, nth 1 parts EmptyString)
    else (name, arg) in
  (strings_TrimSpace go name, strings_TrimSpace go arg).

Definition factory_error : error := "failed to instantiate provider factory".

Definition InitFromEnvironment_directive (s : addr) (c : string) : M unit :=
  let '(name, arg) := directive c in
  w <- get ;;
  match providerFactories w !! name with
  | Some (Some f) => run_factory f arg
  | _ => Store_ErrorProvider s (name +:+ ":" +:+ arg) factory_error
  end.

Definition Store_InitFromEnvironment (s : addr) : M unit :=
  w <- get ;;
  let cfg := os_Getenv (environ w) ConfigEnvVar in
  if String.eqb cfg "" then ret tt
  else
    let cfgList := strings_Split cfg "," in
    for_range cfgList (InitFromEnvironment_directive s).

End Loaders.

(** The package's [init]: the default store and the built-in factories. *)
Definition init_world (e : list string) (f : FS) (t : Z) : World :=
  {| stores := {[ _store := {| providers := ∅; allowProviderOverride := false;
                               watchers := [] |} ]};
     inmems := ∅; envps := ∅; chans := ∅;
     providerFactories := {[ "file" := Some FactoryFile;
                             "filelist" := Some FactoryFileList;
                             "filetree" := Some FactoryFileTree ]};
     environ := e; fs := f; now := t; pollers := []; logs := [] |}.

(** * Definitions for the statements *)

Definition with_provider (name : string) (f : Provider) (st : Store) : Store :=
  {| providers := <[name := f]> (providers st);
     allowProviderOverride := allowProviderOverride st;
     watchers := watchers st |}.

(** Whether [RegisterProvider] accepts [name] in the store [st]. *)
Definition accepts (st : Store) (name : string) : Prop :=
  providers st !! name = None \/ allowProviderOverride st = true.

(** What applying options to the provider at [a] leaves alone. *)
Definition only_envp (a : addr) (w0 w : World) : Prop :=
  stores w = stores w0 /\ inmems w = inmems w0 /\ chans w = chans w0 /\
  providerFactories w = providerFactories w0 /\ environ w = environ w0 /\
  fs w = fs w0 /\
  is_Some (envps w !! a) /\ dom (envps w) = dom (envps w0).

(** The effect of one non-blocking send on the channel heap. *)
Definition try_send (m : gmap addr Chan) (ch : addr) : gmap addr Chan :=
  match m !! ch with
  | Some c =>
      if (chan_len c <? chan_cap c)%nat
      then <[ch := {| chan_cap := chan_cap c; chan_len := S (chan_len c) |}]> m
      else m
  | None => m
  end.

(** [n] calls of [NotifyWatchers] in a row. *)
Fixpoint notify_times (n : nat) (s : addr) : M unit :=
  match n with
  | O => ret tt
  | S k => Store_NotifyWatchers s ;;; notify_times k s
  end.

Section FileTreeItems.
Context (go : GoLib) (fsys : FS).

(** Priority by capitalisation of a file's own name. *)
Definition capitalised_priority (basename : string) : Z :=
  if unicode_IsUpper go (utf8_DecodeRuneInString basename) then 10 else 5.

(** [it] is the item made of the file at [path], whose own name is
    [basename], under the key [itemKey]. *)
Definition item_of_file (path basename itemKey : string) (it : Item) : Prop :=
  key it = itemKey /\
  ReadFile fsys path = Ok (value it) /\
  priority it = capitalised_priority basename.

(** The items of a first-level subdirectory called [basename], listed as
    [sub]: one per entry, none of which is a directory. *)
Definition items_of_subdir (path basename : string)
           (sub : list FileInfo) (grp : list Item) : Prop :=
  Forall2 (fun g it =>
             IsDir g = false /\
             item_of_file (filepath_Join go path (Name g)) (Name g) basename it)
          sub grp.

(** The items of one entry [f] of the directory [dirname]. *)
Definition items_of_entry (dirname : string) (f : FileInfo) (grp : list Item) : Prop :=
  let filename := filepath_Join go dirname (Name f) in
  if IsDir f
  then exists sub, ReadDir fsys filename = Ok sub /\
                   items_of_subdir filename (Name f) sub grp
  else exists it, grp = [it] /\ item_of_file filename (Name f) (Name f) it.

(** The errors that end a load: a nested directory, or a failed read. *)
Definition subdir_error (path basename : string) (sub : list FileInfo) (err : error)
  : Prop :=
  exists g, g ∈ sub /\
    (IsDir g = true /\ err = nested_directory_error basename (Name g)
     \/ IsDir g = false /\ ReadFile fsys (filepath_Join go path (Name g)) = Err err).

Definition load_error (dirname : string) (files : list FileInfo) (err : error) : Prop :=
  exists f, f ∈ files /\
    let filename := filepath_Join go dirname (Name f) in
    (IsDir f = false /\ ReadFile fsys filename = Err err
     \/ IsDir f = true /\ ReadDir fsys filename = Err err
     \/ IsDir f = true /\ exists sub, ReadDir fsys filename = Ok sub /\
                                      subdir_error filename (Name f) sub err).

End FileTreeItems.

(** Every file of the tree can be read, and so can every first-level
    subdirectory. *)
Definition all_reads_succeed (go : GoLib) (fsys : FS) (dirname : string)
           (files : list FileInfo) : Prop :=
  forall f, f ∈ files ->
    let filename := filepath_Join go dirname (Name f) in
    if IsDir f
    then exists sub, ReadDir fsys filename = Ok sub /\
           forall g, g ∈ sub -> IsDir g = false ->
                     exists c, ReadFile fsys (filepath_Join go filename (Name g)) = Ok c
    else exists c, ReadFile fsys filename = Ok c.

(** No first-level subdirectory lists a directory. *)
Definition one_level (go : GoLib) (fsys : FS) (dirname : string)
           (files : list FileInfo) : Prop :=
  forall f sub g,
    f ∈ files -> IsDir f = true ->
    ReadDir fsys (filepath_Join go dirname (Name f)) = Ok sub ->
    g ∈ sub -> IsDir g = false.

Section EnvironmentItems.
Context (go : GoLib).

(** One iteration of the loop of [WithAutomaticBinding], on the map. *)
Definition bind_automatic (pfx keySeparator : string)
           (b : gmap string string) (env : string) : gmap string string :=
  match strings_SplitN_2 env "=" !! 0%nat with
  | Some variable =>
      if strings_HasPrefix variable pfx
      then <[variable := automatic_key go variable pfx keySeparator]> b
      else b
  | None => b
  end.

Definition with_bindings (b : gmap string string) (p : EnvVariableProvider)
  : EnvVariableProvider :=
  {| inMemory := inMemory p; bindings := b; env_priority := env_priority p |}.

End EnvironmentItems.

(** The item of one entry of the environment, if its variable is bound. *)
Definition entry_item (b : gmap string string) (prio : Z) (env : string) : list Item :=
  match cut_first "=" env with
  | Some (variable, v) =>
      match b !! variable with
      | Some k => [{| key := k; value := v; priority := prio |}]
      | None => []
      end
  | None => []
  end.

Definition bound_items (b : gmap string string) (prio : Z) (env : list string)
  : list Item :=
  flat_map (entry_item b prio) env.

Definition with_items (l : list Item) (p : EnvVariableProvider) : EnvVariableProvider :=
  {| inMemory := {| items := l |};
     bindings := bindings p;
     env_priority := env_priority p |}.

Definition has_variable (env : string) : Prop := cut_first "=" env <> None.

(** An entry of the environment other than those of [APP_DB_HOST]. *)
Definition other_variable (env : string) : Prop :=
  exists variable v, cut_first "=" env = Some (variable, v) /\ variable <> "APP_DB_HOST".

(** Options that only fix the priority, and the priority a list of options
    leaves in a provider that had [init]. *)
Definition is_priority (opt : EnvVariableOptions) : Prop :=
  exists p, opt = WithPriority p.

Definition priority_of_options (init : Z) (opts : list EnvVariableOptions) : Z :=
  foldl (fun acc opt => match opt with WithPriority p => p | _ => acc end) init opts.

(** The pieces of a string joined again by the separator. *)
Fixpoint join_with (sep : ascii) (l : list string) : string :=
  match l with
  | [] => EmptyString
  | [x] => x
  | x :: rest => x +:+ String sep (join_with sep rest)
  end.

Definition no_byte (sep : ascii) (s : string) : Prop := sep ∉ bytes s.

(** Trimming ASCII white space at both ends, in the words of the
    specification. *)
Fixpoint drop_spaces (l : list ascii) : list ascii :=
  match l with
  | [] => []
  | c :: r => if asciiSpace c then drop_spaces r else l
  end.

Definition trim_ascii (s : string) : string :=
  of_bytes (rev (drop_spaces (rev (drop_spaces (bytes s))))).

Definition ascii_only (s : string) : Prop :=
  Forall (fun c => is_ascii_byte c = true) (bytes s).

Definition unregistered (w : World) (name : string) : Prop :=
  providerFactories w !! name = None \/ providerFactories w !! name = Some None.

(** The calls that meet a source error in the world [w], with the name
    under which the error is reported. *)
Inductive source_error (go : GoLib) (custom : nat -> string -> M unit)
          (w : World) (s : addr) : M unit -> string -> error -> Prop :=
| file_unreadable filename refresh fn err :
    (* missing or unreadable file, or content that does not decode *)
    filename <> EmptyString ->
    readFile go (fs w) filename fn = Err err ->
    source_error go custom w s (Store_file go s filename refresh fn)
                 ("file:" +:+ filename) err
| filelist_unreadable dirname err :
    dirname <> EmptyString ->
    ReadDir (fs w) dirname = Err err ->
    source_error go custom w s (Store_FileList go s dirname)
                 ("filelist:" +:+ dirname) err
| filetree_unreadable dirname err :
    dirname <> EmptyString ->
    ReadDir (fs w) dirname = Err err ->
    source_error go custom w s (Store_FileTree go s dirname)
                 ("filetree:" +:+ dirname) err
| filetree_entry_error dirname files err :
    (* an unreadable entry, or a directory nested too deep *)
    dirname <> EmptyString ->
    ReadDir (fs w) dirname = Ok files ->
    FileTree_files go (fs w) dirname [] files = Err err ->
    source_error go custom w s (Store_FileTree go s dirname)
                 ("filetree:" +:+ dirname) err
| unknown_factory c name arg :
    directive go c = (name, arg) ->
    unregistered w name ->
    source_error go custom w s (InitFromEnvironment_directive go custom s c)
                 (name +:+ ":" +:+ arg) factory_error.

(** * Worked inputs *)

(** An instance of the library parameters for ASCII text and a Unix path
    separator. The examples below never reach its Unicode fall-backs. *)
Definition example_go : GoLib :=
  {| unicode_Upper := fun _ => false;
     TrimFunc_IsSpace := fun s => s;
     TrimRightFunc_IsSpace := fun s => s;
     Map_ToLower := fun s => s;
     filepath_Join := fun dir name => dir +:+ "/" +:+ name;
     yaml_Unmarshal := fun _ => Err "yaml: cannot unmarshal" |}.

Definition no_custom : nat -> string -> M unit := fun _ _ => ret tt.

Fixpoint lookup_path {A} (tbl : list (string * A)) (path : string) : option A :=
  match tbl with
  | [] => None
  | (p, a) :: rest => if String.eqb p path then Some a else lookup_path rest path
  end.

Definition not_found (op path : string) : error :=
  op +:+ " " +:+ path +:+ ": no such file or directory".

(** A file system given by the listing of its directories and, for each
    file, its modification time and what reading it returns. *)
Definition table_fs (dirs : list (string * list FileInfo))
           (files : list (string * (Z * result string))) : FS :=
  {| ReadDir := fun path =>
       match lookup_path dirs path with
       | Some l => Ok l
       | None => Err (not_found "open" path)
       end;
     ReadFile := fun path =>
       match lookup_path files path with
       | Some (_, content) => content
       | None => Err (not_found "open" path)
       end;
     Stat := fun path =>
       match lookup_path files path with
       | Some (t, _) => Ok {| Name := path; IsDir := false; ModTime := t |}
       | None => Err (not_found "stat" path)
       end |}.

Definition plain (name : string) : FileInfo :=
  {| Name := name; IsDir := false; ModTime := 0 |}.
Definition directory (name : string) : FileInfo :=
  {| Name := name; IsDir := true; ModTime := 0 |}.

(** /conf holds the file Token and the directory db, which holds Primary
    and replica. *)
Definition conf_fs : FS :=
  table_fs [("/conf", [plain "Token"; directory "db"]);
            ("/conf/db", [plain "Primary"; plain "replica"])]
           [("/conf/Token", (0, Ok "t0k3n"));
            ("/conf/db/Primary", (0, Ok "pg://primary"));
            ("/conf/db/replica", (0, Ok "pg://replica"))].

(** /deep holds the file a and the directory db, which holds a directory. *)
Definition deep_fs : FS :=
  table_fs [("/deep", [plain "a"; directory "db"]);
            ("/deep/db", [directory "inner"])]
           [("/deep/a", (0, Ok "A"))].

Definition empty_fs : FS := table_fs [] [].

Definition db_store : Store :=
  {| providers := {[ "db" := ConstProvider empty_ItemList None ]};
     allowProviderOverride := false;
     watchers := [] |}.

Definition db_world : World :=
  set_stores {[ _store := db_store ]} (init_world [] empty_fs 0).

Definition fresh_store : Store :=
  {| providers := ∅; allowProviderOverride := false; watchers := [] |}.

(** The refresh scenario: /etc/app.yaml is loaded at time 10, is rewritten
    at time 20 but cannot be read at the next tick, and can be read at the
    tick after that, its modification time still 20. *)
Definition app_file : string := "/etc/app.yaml".
Definition raw_item (b : string) : result (list Item) := Ok [NewItem "app" b 1].
Definition app_fs_loaded : FS := table_fs [] [(app_file, (5, Ok "old"))].
Definition app_fs_unreadable : FS :=
  table_fs [] [(app_file, (20, Err "open /etc/app.yaml: permission denied"))].
Definition app_fs_readable : FS := table_fs [] [(app_file, (20, Ok "new"))].
Definition app_fs_missing : FS := table_fs [] [].

Definition app_poller (last : Z) : Poller :=
  {| poll_store := _store; poll_filename := app_file; poll_fn := Some raw_item;
     poll_inmem := 0%nat; poll_last := last |}.

Definition conf_world : World := init_world [] conf_fs 0.

Definition deep_world : World := init_world [] deep_fs 0.

Definition app_environ : list string :=
  ["PATH=/bin"; "APP_DB_HOST=localhost"; "HOME=/root"].

Definition directive_world : World :=
  init_world ["CONFIGURATION_FROM= vault : secret/app ,file"] empty_fs 0.

Definition repeated_world : World :=
  init_world ["CONFIGURATION_FROM=nope,nope"] empty_fs 0.

(** * Definitions for further properties *)

(** Registering the providers of [l], in order. *)
Definition register_each (s : addr) (l : list (string * Provider)) : M unit :=
  for_range l (fun nf => Store_RegisterProvider s (fst nf) (snd nf)).

(** The provider map after the registrations of a list [l], each element
    [x] under the name [nm x] with the provider [pv x]. *)
Definition insert_each {A} (nm : A -> string) (pv : A -> Provider)
           (m : gmap string Provider) (l : list A) : gmap string Provider :=
  foldl (fun acc x => <[nm x := pv x]> acc) m l.

Definition with_providers (m : gmap string Provider) (st : Store) : Store :=
  {| providers := m;
     allowProviderOverride := allowProviderOverride st;
     watchers := watchers st |}.

(** The factories that [init] registers. *)
Definition builtin (f : Factory) : Prop :=
  f = FactoryFile \/ f = FactoryFileList \/ f = FactoryFileTree.

(** The name under which a directive with no factory is reported. *)
Definition directive_name (go : GoLib) (c : string) : string :=
  fst (directive go c) +:+ ":" +:+ snd (directive go c).

(** The variable of an entry of the environment: [splittedEnv[0]]. *)
Definition variable_of (env : string) : string :=
  match cut_first "=" env with
  | Some (variable, _) => variable
  | None => env
  end.

(** Inputs for the further properties *)

(** A world with a second store, at address 1. *)
Definition two_store_world (e : list string) (f : FS) : World :=
  set_stores {[ _store := fresh_store; 1%nat := fresh_store ]} (init_world e f 0).

(** A library instance whose decoder wraps the content in one item. *)
Definition raw_go : GoLib :=
  {| unicode_Upper := fun _ => false;
     TrimFunc_IsSpace := fun s => s;
     TrimRightFunc_IsSpace := fun s => s;
     Map_ToLower := fun s => s;
     filepath_Join := fun dir name => dir +:+ "/" +:+ name;
     yaml_Unmarshal := raw_item |}.

(** /etc/conf.d holds two files. *)
Definition confd_fs : FS :=
  table_fs [("/etc/conf.d", [plain "a.yaml"; plain "b.yaml"])]
           [("/etc/conf.d/a.yaml", (0, Ok "A"));
            ("/etc/conf.d/b.yaml", (0, Ok "B"))].

(** A world with a channel of capacity 1, watched by the default store,
    that holds no signal. *)
Definition watched_store : Store :=
  {| providers := ∅; allowProviderOverride := false; watchers := [0%nat] |}.

Definition watched_world (f : FS) : World :=
  set_chans {[ 0%nat := {| chan_cap := 1; chan_len := 0 |} ]}
    (set_stores {[ _store := watched_store ]} (init_world [] f 0)).

(** A world with an environment provider at address 0 that binds HOME and
    holds a stale item. *)
Definition home_provider : EnvVariableProvider :=
  {| inMemory := {| items := [NewItem "stale" "x" 0] |};
     bindings := {[ "HOME" := "home" ]};
     env_priority := 4 |}.

Definition home_world (e : list string) : World :=
  set_envps {[ 0%nat := home_provider ]} (init_world e empty_fs 0).

(** * Properties *)

(** ** The library model on examples *)

Example decode_ascii : utf8_DecodeRuneInString "Primary" = 80.
Proof. reflexivity. Qed.

Example split_two : strings_Split "file:/a,filelist:/b" "," = ["file:/a"; "filelist:/b"].
Proof. reflexivity. Qed.

Example splitn_first_colon : strings_SplitN_2 "a:b:c" ":" = ["a"; "b:c"].
Proof. reflexivity. Qed.

(** ** The registry *)

Lemma RegisterProvider_conflict (w : World) (s : addr) (st : Store)
      (name : string) (f : Provider) :
  stores w !! s = Some st ->
  is_Some (providers st !! name) ->
  allowProviderOverride st = false ->
  Store_RegisterProvider s name f w
  = Panic ("conflict on configuration provider: " +:+ name).
Proof.
  intros Hs Hin Hflag.
  unfold Store_RegisterProvider, load_store, bind, get. rewrite Hs. cbn.
  rewrite (bool_decide_eq_true_2 _ Hin), Hflag. reflexivity.
Qed.

Lemma RegisterProvider_registers (w : World) (s : addr) (st : Store)
      (name : string) (f : Provider) :
  stores w !! s = Some st ->
  providers st !! name = None \/ allowProviderOverride st = true ->
  Store_RegisterProvider s name f w
  = Done tt (set_stores (<[s := with_provider name f st]> (stores w)) w).
Proof.
  intros Hs Hfree.
  unfold Store_RegisterProvider, load_store, bind, get. rewrite Hs. cbn.
  destruct Hfree as [Hnone | Hflag].
  - rewrite bool_decide_eq_false_2; [reflexivity |].
    rewrite Hnone. intros [x Hx]. discriminate.
  - replace (negb (allowProviderOverride st)) with false
      by (rewrite Hflag; reflexivity).
    rewrite andb_false_r. reflexivity.
Qed.

Lemma RegisterProvider_nil (w : World) (s : addr) (name : string) (f : Provider) :
  stores w !! s = None ->
  Store_RegisterProvider s name f w = Panic nil_dereference.
Proof.
  intros Hs. unfold Store_RegisterProvider, load_store, bind, get.
  rewrite Hs. reflexivity.
Qed.

Lemma AllowProviderOverride_sets (w : World) (s : addr) (st : Store) :
  stores w !! s = Some st ->
  exists w1,
    Store_AllowProviderOverride s w = Done tt w1 /\
    stores w1 = <[s := {| providers := providers st;
                          allowProviderOverride := true;
                          watchers := watchers st |}]> (stores w) /\
    inmems w1 = inmems w /\ envps w1 = envps w /\ chans w1 = chans w /\
    providerFactories w1 = providerFactories w.
Proof.
  intros Hs. eexists.
  unfold Store_AllowProviderOverride, LogInfo, load_store, bind, get, modify.
  cbn. rewrite Hs. cbn. repeat split; reflexivity.
Qed.

(** C1. Registering under a name that is already present panics while
    override mode is off; once [AllowProviderOverride] has run on the store
    the same call replaces the provider, and looking the name up gives the
    new provider. *)
Theorem RegisterProvider_conflict_or_override
        (w : World) (s : addr) (st : Store) (name : string) (old f : Provider) :
  stores w !! s = Some st ->
  providers st !! name = Some old ->
  (allowProviderOverride st = false ->
   Store_RegisterProvider s name f w
   = Panic ("conflict on configuration provider: " +:+ name))
  /\
  (exists w1 st1,
      Store_AllowProviderOverride s w = Done tt w1 /\
      stores w1 !! s = Some st1 /\
      allowProviderOverride st1 = true /\
      providers st1 = providers st /\
      exists w2 st2,
        Store_RegisterProvider s name f w1 = Done tt w2 /\
        stores w2 !! s = Some st2 /\
        providers st2 !! name = Some f /\
        (forall other, other <> name -> providers st2 !! other = providers st !! other) /\
        allowProviderOverride st2 = true).
Proof.
  intros Hs Hold. split.
  - intros Hflag. apply (RegisterProvider_conflict w s st); eauto.
  - destruct (AllowProviderOverride_sets w s st Hs) as (w1 & Hallow & Hstores & _).
    exists w1. eexists. split; [exact Hallow |].
    assert (H1 : stores w1 !! s = Some {| providers := providers st;
                                          allowProviderOverride := true;
                                          watchers := watchers st |}).
    { rewrite Hstores. apply lookup_insert_eq. }
    split; [exact H1 |]. split; [reflexivity |]. split; [reflexivity |].
    eexists. eexists. split.
    + apply (RegisterProvider_registers w1 s _ name f H1). right. reflexivity.
    + cbn. rewrite lookup_insert_eq. split; [reflexivity |]. cbn.
      split; [apply lookup_insert_eq |]. split; [| reflexivity].
      intros other Hne. apply lookup_insert_ne. congruence.
Qed.

Lemma Clear_resets (w : World) (s : addr) (st : Store) :
  stores w !! s = Some st ->
  Store_Clear s w
  = Done s (set_stores (<[s := {| providers := ∅;
                                  allowProviderOverride := false;
                                  watchers := watchers st |}]> (stores w)) w).
Proof.
  intros Hs. unfold Store_Clear, load_store, save_store, bind, get, modify, ret.
  rewrite Hs. reflexivity.
Qed.

(** C9. [Clear] empties the provider map and resets the override flag; the
    watcher list of the store and the factory registry are what they were. *)
Theorem Clear_resets_providers_and_flag_only (w : World) (s : addr) (st : Store) :
  stores w !! s = Some st ->
  exists w' st',
    Store_Clear s w = Done s w' /\
    stores w' !! s = Some st' /\
    providers st' = ∅ /\
    allowProviderOverride st' = false /\
    watchers st' = watchers st /\
    chans w' = chans w /\
    providerFactories w' = providerFactories w.
Proof.
  intros Hs. rewrite (Clear_resets w s st Hs).
  eexists. eexists. split; [reflexivity |]. cbn.
  rewrite lookup_insert_eq. repeat split; reflexivity.
Qed.

(** ** Running computations *)

Lemma bind_done {A B} (m : M A) (k : A -> M B) (w : World) (a : A) (w' : World) :
  m w = Done a w' -> bind m k w = k a w'.
Proof. intros H. unfold bind. rewrite H. reflexivity. Qed.

Lemma bind_panic {A B} (m : M A) (k : A -> M B) (w : World) (msg : string) :
  m w = Panic msg -> bind m k w = Panic msg.
Proof. intros H. unfold bind. rewrite H. reflexivity. Qed.

(** ** Loops that cannot fail *)

Lemma for_range_invariant {A} (P : World -> Prop) (body : A -> M unit) (l : list A) :
  (forall x w, P w -> exists w', body x w = Done tt w' /\ P w') ->
  forall w, P w -> exists w', for_range l body w = Done tt w' /\ P w'.
Proof.
  intros Hbody. induction l as [| x l IH]; intros w Hw.
  - exists w. split; [reflexivity | exact Hw].
  - destruct (Hbody x w Hw) as (w1 & Hx & Hw1).
    destruct (IH w1 Hw1) as (w2 & Hl & Hw2).
    exists w2. split; [| exact Hw2].
    cbn. unfold bind. rewrite Hx. exact Hl.
Qed.

(** ** The environment provider: registration *)

Lemma save_envp_only (a : addr) (p : EnvVariableProvider) (w0 w : World) :
  only_envp a w0 w -> only_envp a w0 (set_envps (<[a := p]> (envps w)) w).
Proof.
  intros (H1 & H2 & H3 & H4 & H5 & H6 & H7 & H8).
  repeat split; cbn; try assumption.
  - rewrite lookup_insert_eq. eauto.
  - rewrite dom_insert_L, <- H8.
    assert (Hin : a ∈ dom (envps w)) by (apply elem_of_dom; exact H7).
    apply subseteq_union_1_L, singleton_subseteq_l, Hin.
Qed.

Lemma BindEnv_only (a : addr) (v k : string) (w0 w : World) :
  only_envp a w0 w ->
  exists w', EnvVariableProvider_BindEnv a v k w = Done tt w' /\ only_envp a w0 w'.
Proof.
  intros Hw. pose proof Hw as (_ & _ & _ & _ & _ & _ & [p Hp] & _).
  unfold EnvVariableProvider_BindEnv, load_envp, save_envp, bind, get, modify.
  rewrite Hp. cbn. eexists. split; [reflexivity |].
  apply save_envp_only, Hw.
Qed.

Lemma SplitN_2_first (s : string) (sep : ascii) :
  exists x, strings_SplitN_2 s sep !! 0%nat = Some x.
Proof.
  unfold strings_SplitN_2. destruct (cut_first sep s) as [[a b] |]; eauto.
Qed.

Lemma apply_option_only (go : GoLib) (opt : EnvVariableOptions) (a : addr) (w0 w : World) :
  only_envp a w0 w ->
  exists w', apply_option go opt a w = Done tt w' /\ only_envp a w0 w'.
Proof.
  intros Hw. destruct opt as [p | pfx sep | f]; cbn.
  - pose proof Hw as (_ & _ & _ & _ & _ & _ & [pr Hp] & _).
    unfold load_envp, save_envp, bind, get, modify. rewrite Hp. cbn.
    eexists. split; [reflexivity |]. apply save_envp_only, Hw.
  - unfold bind at 1, get.
    apply (for_range_invariant (only_envp a w0)); [| exact Hw].
    intros env w1 Hw1. unfold bind, index_string.
    destruct (SplitN_2_first env "=") as [variable ->]. cbn.
    destruct (strings_HasPrefix variable pfx); cbn.
    + apply BindEnv_only, Hw1.
    + exists w1. split; [reflexivity | exact Hw1].
  - pose proof Hw as (_ & _ & _ & _ & _ & _ & [pr Hp] & _).
    unfold load_envp, save_envp, bind, get, modify. rewrite Hp. cbn.
    eexists. split; [reflexivity |]. apply save_envp_only, Hw.
Qed.

(** [EnvVariable] up to its call of [RegisterProvider]. *)
Lemma EnvVariable_registers_environ (go : GoLib) (s : addr)
      (opts : list EnvVariableOptions) (w : World) :
  exists w1,
    stores w1 = stores w /\ chans w1 = chans w /\
    providerFactories w1 = providerFactories w /\
    Store_EnvVariable go s opts w
    = match Store_RegisterProvider s "environ"
              (EnvVariableItems (fresh (dom (envps w)))) w1 with
      | Done _ w2 => Done (fresh (dom (envps w))) w2
      | Panic msg => Panic msg
      | Blocked => Blocked
      end.
Proof.
  set (a := fresh (dom (envps w))).
  set (p0 := {| inMemory := {| items := [] |}; bindings := ∅; env_priority := 0 |}).
  set (w0 := set_envps (<[a := p0]> (envps w)) w).
  assert (H0 : only_envp a w0 w0).
  { repeat split. cbn. rewrite lookup_insert_eq. eauto. }
  destruct (for_range_invariant (only_envp a w0)
              (fun opt => apply_option go opt a) opts
              (fun x w' Hw' => apply_option_only go x a w0 w' Hw') w0 H0)
    as (w1 & Hrun & (H1 & _ & H3 & H4 & _)).
  exists w1. repeat split; try assumption.
  unfold Store_EnvVariable, save_envp, bind, get, modify. cbn.
  fold a. fold p0. fold w0. rewrite Hrun.
  destruct (Store_RegisterProvider s "environ" (EnvVariableItems a) w1); reflexivity.
Qed.

(** C10. Whatever the options, [EnvVariable] registers its provider under
    the name "environ": the call returns where the store accepts that name
    and panics on it otherwise; so on a store with override mode off,
    constructing a second provider panics. *)
Theorem EnvVariable_fixed_name_collides
        (go : GoLib) (w : World) (s : addr) (st : Store)
        (opts : list EnvVariableOptions) :
  stores w !! s = Some st ->
  (accepts st "environ" ->
   exists p w1, Store_EnvVariable go s opts w = Done p w1)
  /\
  (is_Some (providers st !! "environ") -> allowProviderOverride st = false ->
   Store_EnvVariable go s opts w = Panic "conflict on configuration provider: environ")
  /\
  (forall p w1,
      Store_EnvVariable go s opts w = Done p w1 ->
      (exists st1,
          stores w1 !! s = Some st1 /\
          providers st1 !! "environ" = Some (EnvVariableItems p) /\
          (forall other, other <> "environ" ->
                         providers st1 !! other = providers st !! other) /\
          allowProviderOverride st1 = allowProviderOverride st)
      /\
      (allowProviderOverride st = false ->
       forall opts',
         Store_EnvVariable go s opts' w1
         = Panic "conflict on configuration provider: environ")).
Proof.
  intros Hs.
  destruct (EnvVariable_registers_environ go s opts w) as (wa & Hst & _ & _ & Heq).
  assert (Hsa : stores wa !! s = Some st) by (rewrite Hst; exact Hs).
  split; [| split].
  - intros Hfree. rewrite Heq.
    rewrite (RegisterProvider_registers wa s st _ _ Hsa Hfree). eauto.
  - intros Hin Hflag. rewrite Heq.
    rewrite (RegisterProvider_conflict wa s st _ _ Hsa Hin Hflag). reflexivity.
  - intros p w1 Hrun. rewrite Heq in Hrun.
    destruct (decide (providers st !! "environ" = None
                      \/ allowProviderOverride st = true)) as [Hfree | Hbusy].
    + rewrite (RegisterProvider_registers wa s st _ _ Hsa Hfree) in Hrun.
      injection Hrun as <- <-.
      assert (H1 : stores (set_stores (<[s := with_provider "environ"
                     (EnvVariableItems (fresh (dom (envps w)))) st]> (stores wa)) wa) !! s
                   = Some (with_provider "environ"
                             (EnvVariableItems (fresh (dom (envps w)))) st)).
      { cbn. apply lookup_insert_eq. }
      split.
      * eexists. split; [exact H1 |]. cbn.
        split; [apply lookup_insert_eq |]. split; [| reflexivity].
        intros other Hne. apply lookup_insert_ne. congruence.
      * intros Hflag opts'.
        match goal with
        | |- Store_EnvVariable go s opts' ?w1 = _ =>
            destruct (EnvVariable_registers_environ go s opts' w1)
              as (wb & Hstb & _ & _ & Heqb)
        end.
        rewrite Heqb.
        rewrite (RegisterProvider_conflict wb s _ "environ" _
                   (eq_trans (f_equal (fun m => m !! s) Hstb) H1)); [reflexivity | |].
        -- cbn. rewrite lookup_insert_eq. eauto.
        -- exact Hflag.
    + exfalso.
      assert (Hin : is_Some (providers st !! "environ")).
      { destruct (providers st !! "environ"); [eauto | tauto]. }
      assert (Hflag : allowProviderOverride st = false).
      { destruct (allowProviderOverride st); [tauto | reflexivity]. }
      rewrite (RegisterProvider_conflict wa s st _ _ Hsa Hin Hflag) in Hrun.
      discriminate.
Qed.

(** ** Watchers *)

Lemma set_chans_same (w : World) : set_chans (chans w) w = w.
Proof. destruct w; reflexivity. Qed.

Lemma select_send_default_try (ch : addr) (w : World) :
  select_send_default ch w = Done tt (set_chans (try_send (chans w) ch) w).
Proof.
  unfold select_send_default, try_send, bind, get, modify, ret.
  destruct (chans w !! ch) as [c |]; [| now rewrite set_chans_same].
  destruct (chan_len c <? chan_cap c)%nat; [reflexivity | now rewrite set_chans_same].
Qed.

Lemma for_range_select (l : list addr) (w : World) :
  for_range l select_send_default w
  = Done tt (set_chans (foldl try_send (chans w) l) w).
Proof.
  revert w. induction l as [| ch l IH]; intros w; cbn.
  - unfold ret. now rewrite set_chans_same.
  - unfold bind. rewrite select_send_default_try, IH. reflexivity.
Qed.

Lemma NotifyWatchers_sends (w : World) (s : addr) (st : Store) :
  stores w !! s = Some st ->
  Store_NotifyWatchers s w
  = Done tt (set_chans (foldl try_send (chans w) (watchers st)) w).
Proof.
  intros Hs. unfold Store_NotifyWatchers, load_store, bind, get.
  rewrite Hs. cbn. apply for_range_select.
Qed.

Lemma try_send_other (m : gmap addr Chan) (ch ch' : addr) :
  ch <> ch' -> try_send m ch' !! ch = m !! ch.
Proof.
  intros Hne. unfold try_send. destruct (m !! ch') as [c |]; [| reflexivity].
  destruct (chan_len c <? chan_cap c)%nat; [| reflexivity].
  apply lookup_insert_ne. congruence.
Qed.

(** On a channel of capacity 1 a send fills the buffer if it is empty, and
    is dropped otherwise. *)
Lemma foldl_try_send_cap1 (l : list addr) (m : gmap addr Chan) (ch : addr) (c : Chan) :
  m !! ch = Some c ->
  chan_cap c = 1%nat ->
  foldl try_send m l !! ch
  = Some {| chan_cap := 1;
            chan_len := if bool_decide (ch ∈ l) then Nat.max 1 (chan_len c)
                        else chan_len c |}.
Proof.
  revert m c. induction l as [| x l IH]; intros m c Hm Hcap; cbn.
  - rewrite bool_decide_eq_false_2 by apply not_elem_of_nil.
    rewrite Hm. destruct c; cbn in *; congruence.
  - destruct (decide (ch = x)) as [<- | Hne].
    + rewrite bool_decide_eq_true_2 by apply list_elem_of_here.
      unfold try_send at 2. rewrite Hm, Hcap.
      destruct (chan_len c) as [| k] eqn:Hlen; cbn.
      * rewrite (IH _ {| chan_cap := 1; chan_len := 1 |});
          [| apply lookup_insert_eq | reflexivity].
        cbn. destruct (bool_decide (ch ∈ l)); reflexivity.
      * rewrite (IH _ c Hm Hcap), Hlen.
        destruct (bool_decide (ch ∈ l)); cbn; reflexivity.
    + rewrite (IH (try_send m x) c); [| rewrite try_send_other; auto | exact Hcap].
      destruct (decide (ch ∈ l)) as [Hin | Hnin].
      * rewrite !bool_decide_eq_true_2; auto using list_elem_of_further.
      * rewrite !bool_decide_eq_false_2; auto.
        intros Hin. apply elem_of_cons in Hin as [? | ?]; auto.
Qed.

Lemma notify_times_cap1 (n : nat) (s : addr) (st : Store) (ch : addr) :
  ch ∈ watchers st ->
  forall (w : World) (c : Chan),
    stores w !! s = Some st ->
    chans w !! ch = Some c ->
    chan_cap c = 1%nat ->
    exists w',
      notify_times n s w = Done tt w' /\
      stores w' = stores w /\
      chans w' !! ch
      = Some {| chan_cap := 1;
                chan_len := match n with O => chan_len c | S _ => Nat.max 1 (chan_len c) end |}.
Proof.
  intros Hin. induction n as [| n IH]; intros w c Hs Hch Hcap.
  - exists w. repeat split. rewrite Hch. destruct c; cbn in *; congruence.
  - cbn. unfold bind. rewrite (NotifyWatchers_sends w s st Hs).
    pose proof (foldl_try_send_cap1 (watchers st) (chans w) ch c Hch Hcap) as Hsent.
    rewrite bool_decide_eq_true_2 in Hsent by exact Hin.
    destruct (IH (set_chans (foldl try_send (chans w) (watchers st)) w) _ Hs Hsent eq_refl)
      as (w' & Hrun & Hst & Hlook).
    exists w'. split; [exact Hrun |]. split; [exact Hst |].
    rewrite Hlook. cbn. destruct n; [reflexivity |].
    f_equal. f_equal. lia.
Qed.

Lemma Watch_allocates (w : World) (s : addr) (st : Store) :
  stores w !! s = Some st ->
  Store_Watch s w
  = Done (fresh (dom (chans w)))
         (set_stores (<[s := {| providers := providers st;
                                allowProviderOverride := allowProviderOverride st;
                                watchers := watchers st ++ [fresh (dom (chans w))] |}]>
                        (stores w))
            (set_chans (<[fresh (dom (chans w)) := {| chan_cap := 1; chan_len := 0 |}]>
                          (chans w)) w)).
Proof.
  intros Hs.
  unfold Store_Watch, make_chan, load_store, save_store, bind, get, modify, ret.
  cbn. rewrite Hs. reflexivity.
Qed.

Lemma notify_times_done (n : nat) (s : addr) (st : Store) :
  forall w : World,
    stores w !! s = Some st ->
    exists w', notify_times n s w = Done tt w' /\ stores w' = stores w.
Proof.
  induction n as [| n IH]; intros w Hs; [exists w; auto |].
  cbn. erewrite bind_done; [| apply (NotifyWatchers_sends w s st Hs)].
  destruct (IH (set_chans (foldl try_send (chans w) (watchers st)) w) Hs)
    as (w' & Hrun & Hst).
  exists w'. auto.
Qed.

(** C7. The channel returned by [Watch] has capacity 1 and is recorded in
    the store; [NotifyWatchers] always completes, whatever the channels
    hold; after any number of calls with no read in between, the channel
    returned by [Watch] holds one signal, or none if there was no call; and
    any recorded channel of capacity 1 that holds at most one signal still
    does after any number of calls. *)
Theorem Watch_channel_holds_at_most_one
        (w : World) (s : addr) (st : Store) :
  stores w !! s = Some st ->
  (forall n : nat, exists wn, notify_times n s w = Done tt wn)
  /\
  (exists ch w1 st1,
      Store_Watch s w = Done ch w1 /\
      chans w1 !! ch = Some {| chan_cap := 1; chan_len := 0 |} /\
      stores w1 !! s = Some st1 /\
      ch ∈ watchers st1 /\
      forall n : nat,
      exists wn c,
        notify_times n s w1 = Done tt wn /\
        chans wn !! ch = Some c /\
        chan_cap c = 1%nat /\
        chan_len c = Nat.min n 1 /\
        (chan_len c <= 1)%nat)
  /\
  (forall (ch : addr) (c : Chan) (n : nat),
      ch ∈ watchers st ->
      chans w !! ch = Some c ->
      chan_cap c = 1%nat ->
      (chan_len c <= 1)%nat ->
      exists wn c',
        notify_times n s w = Done tt wn /\
        chans wn !! ch = Some c' /\
        chan_cap c' = 1%nat /\
        (chan_len c <= chan_len c' <= 1)%nat /\
        (0 < n -> chan_len c' = 1)%nat).
Proof.
  intros Hs. split; [| split].
  - intros n. destruct (notify_times_done n s st w Hs) as (wn & Hrun & _). eauto.
  - rewrite (Watch_allocates w s st Hs).
    eexists. eexists. eexists. split; [reflexivity |].
    cbn. rewrite !lookup_insert_eq.
    split; [reflexivity |]. split; [reflexivity |]. cbn.
    split; [apply elem_of_app; right; apply list_elem_of_here |].
    intros n.
    match goal with
    | |- context [notify_times n s ?w1] =>
        destruct (notify_times_cap1 n s
                    {| providers := providers st;
                       allowProviderOverride := allowProviderOverride st;
                       watchers := watchers st ++ [fresh (dom (chans w))] |}
                    (fresh (dom (chans w)))
                    ltac:(apply elem_of_app; right; apply list_elem_of_here)
                    w1 {| chan_cap := 1; chan_len := 0 |})
          as (wn & Hrun & _ & Hlook);
        [cbn; apply lookup_insert_eq | cbn; apply lookup_insert_eq | reflexivity |]
    end.
    exists wn. eexists. split; [exact Hrun |]. split; [exact Hlook |]. cbn.
    split; [reflexivity |]. destruct n; cbn; split; lia.
  - intros ch c n Hin Hch Hcap Hlen.
    destruct (notify_times_cap1 n s st ch Hin w c Hs Hch Hcap)
      as (wn & Hrun & _ & Hlook).
    exists wn. eexists. split; [exact Hrun |]. split; [exact Hlook |]. cbn.
    split; [reflexivity |]. destruct n; cbn; split; lia.
Qed.

(** ** The directory tree loader *)

Section FileTreeShape.
Context (go : GoLib) (fsys : FS).

Lemma readItem_Ok (path basename itemKey : string) (it : Item) :
  readItem go fsys path basename itemKey = Ok it ->
  item_of_file go fsys path basename itemKey it.
Proof.
  unfold readItem, item_of_file, capitalised_priority.
  destruct (ReadFile fsys path) as [content | e]; [| discriminate].
  intros [= <-]. cbn. auto.
Qed.

Lemma readItem_Err (path basename itemKey : string) (err : error) :
  readItem go fsys path basename itemKey = Err err ->
  ReadFile fsys path = Err err.
Proof.
  unfold readItem. destruct (ReadFile fsys path); [discriminate | congruence].
Qed.

Lemma browseDir_files_shape (path basename : string) (sub : list FileInfo) :
  forall (acc : list Item),
    match browseDir_files go fsys acc path basename sub with
    | (items', None) =>
        exists grp, items' = acc ++ grp /\ items_of_subdir go fsys path basename sub grp
    | (_, Some err) => subdir_error go fsys path basename sub err
    end.
Proof.
  induction sub as [| g sub IH]; intros acc; cbn.
  - exists []. split; [now rewrite app_nil_r | constructor].
  - destruct (IsDir g) eqn:Hdir.
    + exists g. split; [apply list_elem_of_here | left; auto].
    + destruct (readItem go fsys (filepath_Join go path (Name g)) (Name g) basename)
        as [it | e] eqn:Hread.
      * specialize (IH (acc ++ [it])).
        destruct (browseDir_files go fsys (acc ++ [it]) path basename sub)
          as [items' [err |]].
        -- destruct IH as (g' & Hin & Hg'). exists g'.
           split; [apply list_elem_of_further, Hin | exact Hg'].
        -- destruct IH as (grp & -> & Hgrp). exists (it :: grp).
           split; [now rewrite <- app_assoc |].
           constructor; [| exact Hgrp].
           split; [exact Hdir | apply readItem_Ok, Hread].
      * exists g. split; [apply list_elem_of_here |].
        right. split; [exact Hdir | apply readItem_Err in Hread; exact Hread].
Qed.

Lemma FileTree_files_shape (dirname : string) (files : list FileInfo) :
  forall (acc : list Item),
    match FileTree_files go fsys dirname acc files with
    | Ok items =>
        exists groups, items = acc ++ concat groups /\
                       Forall2 (items_of_entry go fsys dirname) files groups
    | Err err => load_error go fsys dirname files err
    end.
Proof.
  induction files as [| f files IH]; intros acc; cbn.
  - exists []. split; [now rewrite app_nil_r | constructor].
  - destruct (IsDir f) eqn:Hdir.
    + unfold browseDir.
      destruct (ReadDir fsys (filepath_Join go dirname (Name f))) as [sub | e] eqn:Hsub.
      * pose proof (browseDir_files_shape (filepath_Join go dirname (Name f))
                      (Name f) sub acc) as Hb.
        destruct (browseDir_files go fsys acc (filepath_Join go dirname (Name f))
                    (Name f) sub) as [items' [err |]].
        -- exists f. split; [apply list_elem_of_here |].
           right. right. split; [exact Hdir |]. exists sub. auto.
        -- destruct Hb as (grp & -> & Hgrp). specialize (IH (acc ++ grp)).
           destruct (FileTree_files go fsys dirname (acc ++ grp) files) as [items | err].
           ++ destruct IH as (groups & -> & Hgroups). exists (grp :: groups).
              split; [cbn; now rewrite app_assoc |].
              constructor; [| exact Hgroups].
              unfold items_of_entry. rewrite Hdir. exists sub. auto.
           ++ destruct IH as (f' & Hin & Hf'). exists f'.
              split; [apply list_elem_of_further, Hin | exact Hf'].
      * exists f. split; [apply list_elem_of_here |]. right. left. auto.
    + destruct (readItem go fsys (filepath_Join go dirname (Name f)) (Name f) (Name f))
        as [it | e] eqn:Hread.
      * specialize (IH (acc ++ [it])).
        destruct (FileTree_files go fsys dirname (acc ++ [it]) files) as [items | err].
        -- destruct IH as (groups & -> & Hgroups). exists ([it] :: groups).
           split; [cbn; now rewrite <- app_assoc |].
           constructor; [| exact Hgroups].
           unfold items_of_entry. rewrite Hdir. exists it.
           split; [reflexivity | apply readItem_Ok, Hread].
        -- destruct IH as (f' & Hin & Hf'). exists f'.
           split; [apply list_elem_of_further, Hin | exact Hf'].
      * exists f. split; [apply list_elem_of_here |].
        left. split; [exact Hdir | apply readItem_Err in Hread; exact Hread].
Qed.

(** A nested directory ends the load with an error. *)
Lemma FileTree_files_nested (dirname : string) (files : list FileInfo)
      (f : FileInfo) (sub : list FileInfo) (g : FileInfo) :
  f ∈ files -> IsDir f = true ->
  ReadDir fsys (filepath_Join go dirname (Name f)) = Ok sub ->
  g ∈ sub -> IsDir g = true ->
  exists err, FileTree_files go fsys dirname [] files = Err err /\
              load_error go fsys dirname files err.
Proof.
  intros Hf Hfdir Hsub Hg Hgdir.
  pose proof (FileTree_files_shape dirname files []) as Hshape.
  destruct (FileTree_files go fsys dirname [] files) as [items | err]; [| eauto].
  exfalso. destruct Hshape as (groups & _ & Hgroups).
  apply list_elem_of_lookup in Hf as [i Hi].
  destruct (Forall2_lookup_l _ _ _ _ _ Hgroups Hi) as (grp & _ & Hentry).
  unfold items_of_entry in Hentry. rewrite Hfdir, Hsub in Hentry.
  destruct Hentry as (sub' & [= <-] & Hgrp).
  apply list_elem_of_lookup in Hg as [j Hj].
  destruct (Forall2_lookup_l _ _ _ _ _ Hgrp Hj) as (it & _ & Hplain & _).
  congruence.
Qed.

End FileTreeShape.

Lemma set_inmems_same (w : World) : set_inmems (inmems w) w = w.
Proof. destruct w; reflexivity. Qed.

Lemma eqb_nonempty (s : string) : s <> EmptyString -> String.eqb s "" = false.
Proof. intros Hne. apply String.eqb_neq. exact Hne. Qed.

Lemma ErrorProvider_registers (w : World) (s : addr) (st : Store)
      (name : string) (err : error) :
  stores w !! s = Some st ->
  accepts st name ->
  Store_ErrorProvider s name err w
  = Done tt (set_stores (<[s := with_provider name (ErrorProviderFn err) st]> (stores w)) w).
Proof. intros Hs Hfree. now apply RegisterProvider_registers. Qed.

Lemma InMemory_registers (w : World) (st0 : Store) (name : string) :
  stores w !! _store = Some st0 ->
  accepts st0 name ->
  InMemory name w
  = Done (fresh (dom (inmems w)))
         (set_stores (<[_store := with_provider name
                                    (InMemoryItems (fresh (dom (inmems w)))) st0]>
                        (stores w))
            (set_inmems (<[fresh (dom (inmems w)) := {| items := [] |}]> (inmems w)) w)).
Proof.
  intros Hs Hfree. unfold InMemory, Store_InMemory, bind, get, modify. cbn.
  rewrite (RegisterProvider_registers _ _store st0); [reflexivity | exact Hs | exact Hfree].
Qed.

Lemma Add_each (a : addr) (l : list Item) :
  forall (w : World) (acc : list Item),
    inmems w !! a = Some {| items := acc |} ->
    for_range l (fun it => InMemoryProvider_Add a [it] ;;; ret tt) w
    = Done tt (set_inmems (<[a := {| items := acc ++ l |}]> (inmems w)) w).
Proof.
  induction l as [| it l IH]; intros w acc Ha; cbn.
  - unfold ret. rewrite app_nil_r, insert_id by exact Ha.
    now rewrite set_inmems_same.
  - unfold bind, InMemoryProvider_Add, load_inmem, bind, get, modify, ret.
    rewrite Ha. cbn.
    rewrite (IH _ (acc ++ [it])); [| cbn; apply lookup_insert_eq].
    cbn. rewrite insert_insert_eq, <- app_assoc. reflexivity.
Qed.

Section FileTreeLoad.
Context (go : GoLib).

Lemma FileTree_reports (w : World) (s : addr) (dirname : string) (err : error) :
  dirname <> EmptyString ->
  ReadDir (fs w) dirname = Err err
  \/ (exists files, ReadDir (fs w) dirname = Ok files /\
                    FileTree_files go (fs w) dirname [] files = Err err) ->
  Store_FileTree go s dirname w
  = Store_ErrorProvider s ("filetree:" +:+ dirname) err w.
Proof.
  intros Hne Herr. unfold Store_FileTree. rewrite (eqb_nonempty _ Hne).
  unfold bind at 1, get.
  destruct Herr as [-> | (files & -> & ->)]; reflexivity.
Qed.

Lemma FileTree_loads (w : World) (s : addr) (st0 : Store) (dirname : string)
      (files : list FileInfo) (l : list Item) :
  dirname <> EmptyString ->
  ReadDir (fs w) dirname = Ok files ->
  FileTree_files go (fs w) dirname [] files = Ok l ->
  stores w !! _store = Some st0 ->
  accepts st0 ("filetree:" +:+ dirname) ->
  Store_FileTree go s dirname w
  = Done tt
      (set_stores (<[_store := with_provider ("filetree:" +:+ dirname)
                                 (InMemoryItems (fresh (dom (inmems w)))) st0]>
                     (stores w))
         (set_inmems (<[fresh (dom (inmems w)) := {| items := l |}]> (inmems w)) w)).
Proof.
  intros Hne Hdir Hfiles Hs Hfree. unfold Store_FileTree.
  rewrite (eqb_nonempty _ Hne). unfold bind at 1, get. rewrite Hdir, Hfiles.
  unfold bind at 1. rewrite (InMemory_registers w st0 _ Hs Hfree).
  rewrite (Add_each _ l _ []); [| cbn; apply lookup_insert_eq].
  cbn. rewrite insert_insert_eq. reflexivity.
Qed.

End FileTreeLoad.

Lemma load_error_nested (go : GoLib) (fsys : FS) (dirname : string)
      (files : list FileInfo) (err : error) :
  all_reads_succeed go fsys dirname files ->
  load_error go fsys dirname files err ->
  exists f sub g,
    f ∈ files /\ IsDir f = true /\
    ReadDir fsys (filepath_Join go dirname (Name f)) = Ok sub /\
    g ∈ sub /\ IsDir g = true /\
    err = nested_directory_error (Name f) (Name g).
Proof.
  intros Hall (f & Hf & Hcase). specialize (Hall f Hf). cbn in Hall, Hcase.
  destruct Hcase as [(Hplain & Hread) | [(Hdir & Hread) | (Hdir & sub & Hsub & Hg)]].
  - rewrite Hplain in Hall. destruct Hall as (c & Hc). congruence.
  - rewrite Hdir in Hall. destruct Hall as (sub & Hsub & _). congruence.
  - rewrite Hdir in Hall. destruct Hall as (sub' & Hsub' & Hfiles).
    assert (sub' = sub) as -> by congruence.
    destruct Hg as (g & Hin & [(Hgdir & ->) | (Hgplain & Hread)]).
    + exists f, sub, g. auto 10.
    + destruct (Hfiles g Hin Hgplain) as (c & Hc). congruence.
Qed.

(** A tree of one level whose reads all succeed is loaded. *)
Lemma FileTree_files_succeeds (go : GoLib) (fsys : FS) (dirname : string)
      (files : list FileInfo) :
  all_reads_succeed go fsys dirname files ->
  one_level go fsys dirname files ->
  exists l, FileTree_files go fsys dirname [] files = Ok l.
Proof.
  intros Hall Hone.
  pose proof (FileTree_files_shape go fsys dirname files []) as Hshape.
  destruct (FileTree_files go fsys dirname [] files) as [l | err]; [eauto |].
  exfalso.
  destruct (load_error_nested go fsys dirname files err Hall Hshape)
    as (f & sub & g & Hf & Hfdir & Hsub & Hg & Hgdir & _).
  rewrite (Hone f sub g Hf Hfdir Hsub Hg) in Hgdir. discriminate.
Qed.

(** C2. When [FileTree] loads a directory (its reads succeed and it has one
    level of subdirectories), every top-level plain file gives
    one item keyed by the file's name, every file of a first-level
    subdirectory gives one item keyed by the subdirectory's name, and the
    priority of each item is 10 if the first character of the file's own
    name is upper-case and 5 otherwise; the provider registered as
    "filetree:<dirname>" returns these items. In particular a subdirectory
    [db] listing [Primary] and [replica] gives exactly two items keyed [db],
    of priorities 10 and 5. *)
Theorem FileTree_keys_and_priorities
        (go : GoLib) (w : World) (s : addr) (st0 : Store) (dirname : string)
        (files : list FileInfo) :
  dirname <> EmptyString ->
  ReadDir (fs w) dirname = Ok files ->
  all_reads_succeed go (fs w) dirname files ->
  one_level go (fs w) dirname files ->
  stores w !! _store = Some st0 ->
  accepts st0 ("filetree:" +:+ dirname) ->
  exists l groups,
    FileTree_files go (fs w) dirname [] files = Ok l /\
    l = concat groups /\
    Forall2 (items_of_entry go (fs w) dirname) files groups /\
    (exists w' st' inmem,
        Store_FileTree go s dirname w = Done tt w' /\
        stores w' !! _store = Some st' /\
        providers st' !! ("filetree:" +:+ dirname) = Some (InMemoryItems inmem) /\
        call_provider (InMemoryItems inmem) w' = Done ({| Items := l |}, None) w') /\
    (forall (i : nat) (f : FileInfo) (t1 t2 : Z),
        files !! i = Some f ->
        Name f = "db" -> IsDir f = true ->
        ReadDir (fs w) (filepath_Join go dirname "db")
        = Ok [ {| Name := "Primary"; IsDir := false; ModTime := t1 |};
               {| Name := "replica"; IsDir := false; ModTime := t2 |} ] ->
        exists c1 c2,
          groups !! i = Some [ {| key := "db"; value := c1; priority := 10 |};
                               {| key := "db"; value := c2; priority := 5 |} ]).
Proof.
  intros Hne Hdir Hall Hone Hs Hfree.
  destruct (FileTree_files_succeeds go (fs w) dirname files Hall Hone) as (l & Hfiles).
  pose proof (FileTree_files_shape go (fs w) dirname files []) as Hshape.
  rewrite Hfiles in Hshape. destruct Hshape as (groups & Hl & Hgroups).
  exists l, groups. split; [exact Hfiles |].
  split; [exact Hl |]. split; [exact Hgroups |]. split.
  - rewrite (FileTree_loads go w s st0 dirname files l Hne Hdir Hfiles Hs Hfree).
    eexists. eexists. eexists. split; [reflexivity |]. cbn.
    split; [apply lookup_insert_eq |]. cbn.
    split; [apply lookup_insert_eq |].
    unfold InMemoryProvider_Items, load_inmem, bind, get. cbn.
    rewrite lookup_insert_eq. reflexivity.
  - intros i f t1 t2 Hi Hname Hfdir Hsub.
    destruct (Forall2_lookup_l _ _ _ _ _ Hgroups Hi) as (grp & Hgrp & Hentry).
    unfold items_of_entry in Hentry. rewrite Hfdir, Hname, Hsub in Hentry.
    destruct Hentry as (sub & [= <-] & Hitems).
    unfold items_of_subdir in Hitems.
    apply Forall2_cons_inv_l in Hitems as (it1 & rest & (_ & H1) & Hrest & ->).
    apply Forall2_cons_inv_l in Hrest as (it2 & rest' & (_ & H2) & Hnil & ->).
    apply Forall2_nil_inv_l in Hnil as ->.
    destruct H1 as (Hk1 & _ & Hp1), H2 as (Hk2 & _ & Hp2).
    exists (value it1), (value it2). rewrite Hgrp.
    destruct it1 as [k1 v1 p1], it2 as [k2 v2 p2]. cbn in *.
    subst k1 k2. rewrite Hp1, Hp2. reflexivity.
Qed.

(** C6. A directory with a subdirectory that itself contains a directory
    is not loaded: [FileTree] registers under "filetree:<dirname>" a
    provider that always fails, with the error that ended the load (the
    nested-directory error when every read succeeds), and it creates no
    in-memory item set. *)
Theorem FileTree_nested_directory_fails
        (go : GoLib) (w : World) (s : addr) (st : Store) (dirname : string)
        (files : list FileInfo) (f : FileInfo) (sub : list FileInfo) (g : FileInfo) :
  dirname <> EmptyString ->
  stores w !! s = Some st ->
  accepts st ("filetree:" +:+ dirname) ->
  ReadDir (fs w) dirname = Ok files ->
  f ∈ files -> IsDir f = true ->
  ReadDir (fs w) (filepath_Join go dirname (Name f)) = Ok sub ->
  g ∈ sub -> IsDir g = true ->
  exists err w' st',
    Store_FileTree go s dirname w = Done tt w' /\
    stores w' !! s = Some st' /\
    providers st' !! ("filetree:" +:+ dirname) = Some (ErrorProviderFn err) /\
    (forall w'', call_provider (ErrorProviderFn err) w''
                 = Done (empty_ItemList, Some err) w'') /\
    inmems w' = inmems w /\
    (forall other, other <> s -> stores w' !! other = stores w !! other) /\
    load_error go (fs w) dirname files err /\
    (all_reads_succeed go (fs w) dirname files ->
     exists f' g', f' ∈ files /\ IsDir f' = true /\ IsDir g' = true /\
                   err = nested_directory_error (Name f') (Name g')).
Proof.
  intros Hne Hs Hfree Hdir Hf Hfdir Hsub Hg Hgdir.
  destruct (FileTree_files_nested go (fs w) dirname files f sub g
              Hf Hfdir Hsub Hg Hgdir) as (err & Herr & Hkind).
  exists err.
  rewrite (FileTree_reports go w s dirname err Hne); [| right; eauto].
  rewrite (ErrorProvider_registers w s st _ err Hs Hfree).
  eexists. eexists. split; [reflexivity |]. cbn.
  split; [apply lookup_insert_eq |]. cbn.
  split; [apply lookup_insert_eq |].
  split; [reflexivity |]. split; [reflexivity |].
  split; [intros other Hother; apply lookup_insert_ne; congruence |].
  split; [exact Hkind |].
  intros Hall.
  destruct (load_error_nested go (fs w) dirname files err Hall Hkind)
    as (f' & sub' & g' & Hf' & Hfdir' & _ & _ & Hgdir' & Herr').
  exists f', g'. auto.
Qed.

(** ** The refresh loop *)

Section Refresh.
Context (go : GoLib).

(** An iteration that fails leaves the world as it was: the items stay,
    no watcher is notified, and the loop goes on to its next tick. *)
Lemma poll_tick_failure (p : Poller) (w : World) :
  (exists e, Stat (fs w) (poll_filename p) = Err e)
  \/ (exists finfo e, Stat (fs w) (poll_filename p) = Ok finfo /\
                      readFile go (fs w) (poll_filename p) (poll_fn p) = Err e) ->
  exists p' r,
    poll_tick go p w = Done (p', r) w /\ r <> Reloaded /\
    poll_store p' = poll_store p /\ poll_filename p' = poll_filename p /\
    poll_fn p' = poll_fn p /\ poll_inmem p' = poll_inmem p.
Proof.
  unfold poll_tick, bind, get.
  intros [(e & ->) | (finfo & e & -> & Hread)].
  - exists p, StatFailed. repeat split. discriminate.
  - destruct (ModTime finfo >? poll_last p).
    + rewrite Hread. eexists. exists ReadFailed. repeat split. discriminate.
    + exists p, NotModified. repeat split. discriminate.
Qed.

(** No iteration panics or blocks, so nothing ends the loop. *)
Lemma poll_tick_goes_on (p : Poller) (w : World) :
  is_Some (stores w !! poll_store p) ->
  exists p' r w', poll_tick go p w = Done (p', r) w'.
Proof.
  intros [st Hst]. unfold poll_tick, bind at 1, get.
  destruct (Stat (fs w) (poll_filename p)) as [finfo | e]; [| eauto].
  destruct (ModTime finfo >? poll_last p); [| eauto].
  destruct (readFile go (fs w) (poll_filename p) (poll_fn p)) as [vals | e]; [| eauto].
  unfold bind, modify.
  rewrite (NotifyWatchers_sends _ _ st) by exact Hst. eauto.
Qed.

(** After a failed [os.Stat] the variable [last] is what it was, and the
    next iteration reads the file if its modification time is later. *)
Lemma poll_tick_stat_failure_keeps_last (p : Poller) (w : World) (e : error) :
  Stat (fs w) (poll_filename p) = Err e ->
  poll_tick go p w = Done (p, StatFailed) w.
Proof. unfold poll_tick, bind, get. intros ->. reflexivity. Qed.

(** After a failed read [last] is already the modification time of the
    file that could not be read: while that time stays the same, later
    iterations do not call [readFile] again. *)
Lemma poll_tick_read_failure_advances_last (p : Poller) (w : World)
      (finfo : FileInfo) (e : error) :
  Stat (fs w) (poll_filename p) = Ok finfo ->
  ModTime finfo > poll_last p ->
  readFile go (fs w) (poll_filename p) (poll_fn p) = Err e ->
  exists p',
    poll_tick go p w = Done (p', ReadFailed) w /\
    poll_last p' = ModTime finfo /\
    forall w2 finfo2,
      Stat (fs w2) (poll_filename p) = Ok finfo2 ->
      ModTime finfo2 <= ModTime finfo ->
      poll_tick go p' w2 = Done (p', NotModified) w2.
Proof.
  intros Hstat Hnew Hread. eexists. split; [| split].
  - unfold poll_tick, bind, get. rewrite Hstat.
    replace (ModTime finfo >? poll_last p) with true by (symmetry; lia).
    rewrite Hread. reflexivity.
  - reflexivity.
  - intros w2 finfo2 Hstat2 Hsame. unfold poll_tick, bind, get. cbn.
    rewrite Hstat2.
    replace (ModTime finfo2 >? ModTime finfo) with false by (symmetry; lia).
    reflexivity.
Qed.

End Refresh.

(** ** The environment provider: bindings and items *)

Lemma set_envps_same (w : World) : set_envps (envps w) w = w.
Proof. destruct w; reflexivity. Qed.

Section Environment.
Context (go : GoLib).

Lemma automatic_binding_loop (a : addr) (pfx keySeparator : string) (l : list string) :
  forall (w : World) (pr : EnvVariableProvider),
    envps w !! a = Some pr ->
    for_range l (fun env =>
      let splittedEnv := strings_SplitN_2 env "=" in
      variable <- index_string splittedEnv 0 ;;
      if negb (strings_HasPrefix variable pfx) then ret tt
      else EnvVariableProvider_BindEnv a variable
             (automatic_key go variable pfx keySeparator)) w
    = Done tt (set_envps
                 (<[a := with_bindings
                           (foldl (bind_automatic go pfx keySeparator) (bindings pr) l) pr]>
                    (envps w)) w).
Proof.
  induction l as [| env l IH]; intros w pr Ha; cbn.
  - unfold ret, with_bindings. destruct pr as [im b prio]. cbn.
    rewrite insert_id by exact Ha. now rewrite set_envps_same.
  - unfold bind at 1. unfold bind_automatic at 2.
    destruct (SplitN_2_first env "=") as [variable Hv].
    unfold bind at 1, index_string. rewrite Hv. cbn.
    destruct (strings_HasPrefix variable pfx); cbn.
    + unfold EnvVariableProvider_BindEnv, load_envp, save_envp, bind, get, modify.
      rewrite Ha. cbn.
      rewrite (IH _ _ (lookup_insert_eq _ _ _)). cbn.
      rewrite insert_insert_eq. reflexivity.
    + apply IH, Ha.
Qed.

(** The binding of a prefixed variable is its automatic key, whatever
    else is bound before or after. *)
Lemma bind_automatic_keeps (pfx keySeparator v : string) (l : list string) :
  forall b : gmap string string,
    b !! v = Some (automatic_key go v pfx keySeparator) ->
    foldl (bind_automatic go pfx keySeparator) b l !! v
    = Some (automatic_key go v pfx keySeparator).
Proof.
  induction l as [| env l IH]; intros b Hb; cbn; [exact Hb |].
  apply IH. unfold bind_automatic.
  destruct (strings_SplitN_2 env "=" !! 0%nat) as [variable |]; [| exact Hb].
  destruct (strings_HasPrefix variable pfx); [| exact Hb].
  destruct (decide (variable = v)) as [-> | Hne].
  - apply lookup_insert_eq.
  - rewrite lookup_insert_ne by exact Hne. exact Hb.
Qed.

Lemma Items_loop (a : addr) (l : list string) :
  Forall has_variable l ->
  forall (w : World) (pr : EnvVariableProvider),
    envps w !! a = Some pr ->
    for_range l (fun env =>
      let splittedEnv := strings_SplitN_2 env "=" in
      variable <- index_string splittedEnv 0 ;;
      value <- index_string splittedEnv 1 ;;
      p <- load_envp a ;;
      match bindings p !! variable with
      | Some k =>
          save_envp a {| inMemory := {| items := items (inMemory p) ++
                                          [{| key := k; value := value;
                                              priority := env_priority p |}] |};
                         bindings := bindings p;
                         env_priority := env_priority p |}
      | None => ret tt
      end) w
    = Done tt (set_envps
                 (<[a := with_items (items (inMemory pr) ++
                                     bound_items (bindings pr) (env_priority pr) l) pr]>
                    (envps w)) w).
Proof.
  induction 1 as [| env l Henv Hl IH]; intros w pr Ha; cbn.
  - unfold ret, with_items. rewrite app_nil_r.
    destruct pr as [[im] b prio]. cbn.
    rewrite insert_id by exact Ha. now rewrite set_envps_same.
  - unfold bind at 1. unfold entry_item, strings_SplitN_2.
    unfold has_variable in Henv.
    destruct (cut_first "=" env) as [[variable v] |]; [| congruence].
    unfold bind at 1, index_string. cbn.
    unfold bind at 1. cbn. unfold bind at 1, load_envp, bind, get.
    rewrite Ha. cbn.
    destruct (bindings pr !! variable) as [k |]; cbn.
    + unfold save_envp, modify.
      rewrite (IH _ _ (lookup_insert_eq _ _ _)). cbn.
      rewrite insert_insert_eq, <- app_assoc. reflexivity.
    + apply IH, Ha.
Qed.

Lemma Items_bound (a : addr) (w : World) (pr : EnvVariableProvider) :
  envps w !! a = Some pr ->
  Forall has_variable (environ w) ->
  EnvVariableProvider_Items a w
  = Done ({| Items := bound_items (bindings pr) (env_priority pr) (environ w) |}, None)
         (set_envps
            (<[a := with_items (bound_items (bindings pr) (env_priority pr) (environ w))
                               pr]> (envps w)) w).
Proof.
  intros Ha Hwf. unfold EnvVariableProvider_Items.
  unfold bind at 1, get. unfold bind at 1, load_envp, bind at 1, get.
  rewrite Ha. cbn. unfold bind at 1, save_envp, modify.
  unfold bind at 1.
  rewrite (Items_loop a (environ w) Hwf _ _ (lookup_insert_eq _ _ _)). cbn.
  unfold bind, load_envp, bind, get. cbn.
  rewrite insert_insert_eq, lookup_insert_eq. reflexivity.
Qed.

End Environment.

Lemma filter_keeps {A} (f : A -> bool) (l : list A) :
  Forall (fun x => f x = true) l -> List.filter f l = l.
Proof.
  induction 1 as [| x l Hx Hl IH]; cbn; [reflexivity |].
  rewrite Hx, IH. reflexivity.
Qed.

Lemma WithAutomaticBinding_binds (go : GoLib) (a : addr) (pfx keySeparator : string)
      (w : World) (pr : EnvVariableProvider) :
  envps w !! a = Some pr ->
  apply_option go (WithAutomaticBinding pfx keySeparator) a w
  = Done tt (set_envps
               (<[a := with_bindings
                         (foldl (bind_automatic go pfx keySeparator) (bindings pr)
                                (environ w)) pr]> (envps w)) w).
Proof.
  intros Ha. cbn [apply_option].
  rewrite (bind_done get _ w w w eq_refl).
  apply automatic_binding_loop, Ha.
Qed.

Lemma WithPriority_sets (go : GoLib) (a : addr) (prio : Z)
      (w : World) (pr : EnvVariableProvider) :
  envps w !! a = Some pr ->
  apply_option go (WithPriority prio) a w
  = Done tt (set_envps
               (<[a := {| inMemory := inMemory pr; bindings := bindings pr;
                          env_priority := prio |}]> (envps w)) w).
Proof.
  intros Ha. cbn [apply_option]. unfold load_envp.
  rewrite (bind_done _ _ w pr w); [reflexivity |].
  rewrite (bind_done get _ w w w eq_refl), Ha. reflexivity.
Qed.

Lemma for_range_app {A} (l1 l2 : list A) (body : A -> M unit) (w w1 : World) :
  for_range l1 body w = Done tt w1 ->
  for_range (l1 ++ l2) body w = for_range l2 body w1.
Proof.
  revert w. induction l1 as [| x l1 IH]; intros w; cbn.
  - unfold ret. now intros [= <-].
  - unfold bind. destruct (body x w) as [[] w' | msg |]; [| discriminate ..].
    apply IH.
Qed.

Lemma priorities_set (go : GoLib) (a : addr) (opts : list EnvVariableOptions) :
  Forall is_priority opts ->
  forall (w : World) (pr : EnvVariableProvider),
    envps w !! a = Some pr ->
    for_range opts (fun opt => apply_option go opt a) w
    = Done tt (set_envps
                 (<[a := {| inMemory := inMemory pr; bindings := bindings pr;
                            env_priority := priority_of_options (env_priority pr) opts |}]>
                    (envps w)) w).
Proof.
  induction 1 as [| opt opts [p ->] Hopts IH]; intros w pr Ha.
  - cbn. unfold ret. destruct pr as [im b prio]. cbn.
    rewrite insert_id by exact Ha. now rewrite set_envps_same.
  - cbn [for_range].
    erewrite bind_done; [| apply (WithPriority_sets go a p w pr Ha)].
    rewrite (IH _ _ (lookup_insert_eq _ _ _)). cbn.
    rewrite insert_insert_eq. reflexivity.
Qed.

Lemma EnvVariable_automatic (go : GoLib) (w : World) (s : addr) (st : Store)
      (pre post : list EnvVariableOptions) (pfx keySeparator : string) :
  Forall is_priority pre ->
  Forall is_priority post ->
  stores w !! s = Some st ->
  accepts st "environ" ->
  Store_EnvVariable go s (pre ++ [WithAutomaticBinding pfx keySeparator] ++ post) w
  = Done (fresh (dom (envps w)))
         (set_stores
            (<[s := with_provider "environ"
                      (EnvVariableItems (fresh (dom (envps w)))) st]> (stores w))
            (set_envps
               (<[fresh (dom (envps w)) :=
                    {| inMemory := {| items := [] |};
                       bindings := foldl (bind_automatic go pfx keySeparator) ∅ (environ w);
                       env_priority := priority_of_options 0 (pre ++ post) |}]>
                  (envps w)) w)).
Proof.
  intros Hpre Hpost Hs Hfree. unfold Store_EnvVariable.
  rewrite (bind_done get _ w w w eq_refl). cbv zeta.
  erewrite bind_done; [| reflexivity].
  erewrite bind_done; cycle 1.
  { erewrite for_range_app;
      [| apply (priorities_set go _ pre Hpre); cbn; apply lookup_insert_eq].
    erewrite (for_range_app [_] post);
      [| cbn [for_range];
         erewrite bind_done;
           [reflexivity
           | apply WithAutomaticBinding_binds; cbn; apply lookup_insert_eq]].
    apply (priorities_set go _ post Hpost). cbn. apply lookup_insert_eq. }
  cbn. rewrite !insert_insert_eq.
  erewrite bind_done; [reflexivity |].
  rewrite (RegisterProvider_registers _ s st); [| exact Hs | exact Hfree].
  unfold priority_of_options. rewrite foldl_app. reflexivity.
Qed.

(** C8. A provider built with [WithAutomaticBinding("APP", "_")], alone or
    among [WithPriority] options, while [APP_DB_HOST=localhost] is in the
    environment, produces an item keyed [db_host] with value [localhost]
    and the provider's priority; after [APP_DB_HOST] is unset, the next call
    produces the same list without that item, and no error. *)
Theorem EnvVariable_automatic_binding_follows_environment
        (go : GoLib) (w : World) (s : addr) (st : Store)
        (pre post : list EnvVariableOptions) (prio : Z)
        (before after : list string) :
  Forall is_priority pre ->
  Forall is_priority post ->
  prio = priority_of_options 0 (pre ++ post) ->
  stores w !! s = Some st ->
  accepts st "environ" ->
  environ w = before ++ ["APP_DB_HOST=localhost"] ++ after ->
  Forall other_variable (before ++ after) ->
  exists (b : gmap string string) (w' : World),
    b !! "APP_DB_HOST" = Some "db_host" /\
    (provider <- Store_EnvVariable go s
                   (pre ++ [WithAutomaticBinding "APP" "_"] ++ post) ;;
     first <- EnvVariableProvider_Items provider ;;
     os_Unsetenv "APP_DB_HOST" ;;;
     second <- EnvVariableProvider_Items provider ;;
     ret (first, second)) w
    = Done (({| Items := bound_items b prio before
                           ++ [{| key := "db_host"; value := "localhost";
                                  priority := prio |}]
                           ++ bound_items b prio after |}, None),
            ({| Items := bound_items b prio before ++ bound_items b prio after |}, None))
           w' /\
    environ w' = before ++ after.
Proof.
  intros Hpre Hpost -> Hs Hfree Henv Hother.
  set (prio := priority_of_options 0 (pre ++ post)).
  set (b := foldl (bind_automatic go "APP" "_") ∅ (environ w)).
  assert (Hb : b !! "APP_DB_HOST" = Some "db_host").
  { unfold b. rewrite Henv, foldl_app. cbn [app foldl].
    apply (bind_automatic_keeps go "APP" "_" "APP_DB_HOST").
    unfold bind_automatic at 1. cbn. apply lookup_insert_eq. }
  assert (Hwf : Forall has_variable (before ++ after)).
  { eapply Forall_impl; [exact Hother |].
    intros env (variable & v & Hcut & _). unfold has_variable. congruence. }
  assert (Hwf1 : Forall has_variable (environ w)).
  { rewrite Henv. apply Forall_app in Hwf as [Hb1 Ha1].
    apply Forall_app. split; [exact Hb1 |].
    constructor; [cbn; discriminate | exact Ha1]. }
  assert (Hfilter : List.filter
                      (fun e => match cut_first "=" e with
                                | Some (variable, _) => negb (String.eqb variable "APP_DB_HOST")
                                | None => true
                                end) (environ w) = before ++ after).
  { rewrite Henv, !List.filter_app. cbn.
    apply Forall_app in Hother as [Hb1 Ha1].
    rewrite !filter_keeps; [reflexivity | |].
    - eapply Forall_impl; [exact Ha1 |].
      intros env (variable & v & -> & Hne).
      apply negb_true_iff, String.eqb_neq, Hne.
    - eapply Forall_impl; [exact Hb1 |].
      intros env (variable & v & -> & Hne).
      apply negb_true_iff, String.eqb_neq, Hne. }
  exists b. eexists. split; [exact Hb |].
  erewrite bind_done;
    [| apply (EnvVariable_automatic go w s st pre post "APP" "_" Hpre Hpost Hs Hfree)].
  fold b. fold prio.
  erewrite bind_done;
    [| apply Items_bound; [cbn; apply lookup_insert_eq | cbn; exact Hwf1]].
  erewrite bind_done; [| unfold os_Unsetenv, modify; cbn; rewrite Hfilter; reflexivity].
  erewrite bind_done;
    [| apply Items_bound; [cbn; rewrite insert_insert_eq; apply lookup_insert_eq
                          | cbn; exact Hwf]].
  cbn. unfold ret. rewrite Henv.
  unfold bound_items. rewrite !flat_map_app. cbn.
  unfold entry_item at 2. cbn. rewrite Hb. cbn.
  split; reflexivity.
Qed.

(** ** Directives of [CONFIGURATION_FROM] *)

Lemma Split_nonempty (s : string) (sep : ascii) : strings_Split s sep <> [].
Proof.
  destruct s as [| c r]; cbn; [discriminate |].
  destruct (Ascii.eqb c sep); [discriminate |].
  destruct (strings_Split r sep); discriminate.
Qed.

(** [strings.Split] cuts at every separator: the pieces hold none, and
    joined by the separator they give the string back. *)
Lemma Split_pieces (sep : ascii) (s : string) :
  join_with sep (strings_Split s sep) = s /\
  Forall (no_byte sep) (strings_Split s sep).
Proof.
  induction s as [| c r [IHjoin IHall]]; cbn.
  - split; [reflexivity |]. constructor; [apply not_elem_of_nil | constructor].
  - destruct (Ascii.eqb c sep) eqn:Hc.
    + apply Ascii.eqb_eq in Hc as ->.
      pose proof (Split_nonempty r sep) as Hne.
      destruct (strings_Split r sep) as [| p ps] eqn:Hsplit; [congruence |].
      split; [| constructor; [apply not_elem_of_nil | exact IHall]].
      change (join_with sep (EmptyString :: p :: ps))
        with (String sep (join_with sep (p :: ps))).
      now rewrite IHjoin.
    + apply Ascii.eqb_neq in Hc.
      pose proof (Split_nonempty r sep) as Hne.
      destruct (strings_Split r sep) as [| p ps] eqn:Hsplit; [congruence |].
      apply Forall_cons in IHall as [Hp Hps]. split.
      * destruct ps as [| q qs].
        -- cbn in *. now rewrite IHjoin.
        -- change (join_with sep (String c p :: q :: qs))
             with (String c (p +:+ String sep (join_with sep (q :: qs)))).
           change (join_with sep (p :: q :: qs))
             with (p +:+ String sep (join_with sep (q :: qs))) in IHjoin.
           now rewrite IHjoin.
      * constructor; [| exact Hps].
        unfold no_byte in *. cbn. intros Hin.
        apply elem_of_cons in Hin as [Heq | Hin]; [congruence | auto].
Qed.

(** [cut_first] cuts at the first separator. *)
Lemma cut_first_Some (sep : ascii) (s a b : string) :
  cut_first sep s = Some (a, b) ->
  s = a +:+ String sep b /\ no_byte sep a.
Proof.
  revert a. induction s as [| c r IH]; intros a; cbn; [discriminate |].
  destruct (Ascii.eqb c sep) eqn:Hc.
  - apply Ascii.eqb_eq in Hc as ->. intros [= <- <-].
    split; [reflexivity | apply not_elem_of_nil].
  - apply Ascii.eqb_neq in Hc.
    destruct (cut_first sep r) as [[a' b'] |]; [| discriminate].
    intros [= <- <-]. destruct (IH a' eq_refl) as [-> Hno].
    split; [reflexivity |]. unfold no_byte in *. cbn. intros Hin.
    apply elem_of_cons in Hin as [Heq | Hin]; [congruence | auto].
Qed.

Lemma cut_first_None (sep : ascii) (s : string) :
  cut_first sep s = None -> no_byte sep s.
Proof.
  induction s as [| c r IH]; cbn; [intros _; apply not_elem_of_nil |].
  destruct (Ascii.eqb c sep) eqn:Hc; [discriminate |].
  apply Ascii.eqb_neq in Hc.
  destruct (cut_first sep r) as [[a b] |]; [discriminate |].
  intros _. specialize (IH eq_refl). unfold no_byte in *. cbn. intros Hin.
  apply elem_of_cons in Hin as [Heq | Hin]; [congruence | auto].
Qed.

Lemma ascii_below_RuneSelf (c : ascii) :
  is_ascii_byte c = true -> (RuneSelf <=? byte c) = false.
Proof. unfold is_ascii_byte. intros H. apply Z.ltb_lt in H. apply Z.leb_gt, H. Qed.

Lemma TrimSpace_stop_ascii (go : GoLib) (l : list ascii) :
  Forall (fun c => is_ascii_byte c = true) l ->
  TrimSpace_stop go l = of_bytes (rev (drop_spaces l)).
Proof.
  induction 1 as [| c r Hc Hr IH]; [reflexivity |].
  cbn [TrimSpace_stop drop_spaces]. rewrite (ascii_below_RuneSelf c Hc).
  destruct (asciiSpace c); [exact IH | reflexivity].
Qed.

Lemma TrimSpace_ascii (go : GoLib) (s : string) :
  ascii_only s -> strings_TrimSpace go s = trim_ascii s.
Proof.
  unfold ascii_only, trim_ascii. induction s as [| c r IH]; [reflexivity |].
  intros Hall. cbn [bytes] in Hall. pose proof Hall as Hall'.
  apply Forall_cons in Hall as [Hc Hr].
  cbn [strings_TrimSpace bytes drop_spaces]. rewrite (ascii_below_RuneSelf c Hc).
  destruct (asciiSpace c); [apply IH, Hr |].
  apply TrimSpace_stop_ascii. cbn [bytes]. apply List.Forall_rev, Hall'.
Qed.

Example trim_example : trim_ascii "  file  " = "file".
Proof. reflexivity. Qed.

Section InitFromEnvironment.
Context (go : GoLib) (custom : nat -> string -> M unit).

(** The name and argument of a directive are the text before and after
    its first colon, each trimmed; without a colon the directive is the
    name and the argument is empty. *)
Lemma directive_first_colon (c : string) :
  directive go c
  = match cut_first ":" c with
    | Some (name, arg) => (strings_TrimSpace go name, strings_TrimSpace go arg)
    | None => (strings_TrimSpace go c, EmptyString)
    end.
Proof.
  unfold directive, strings_SplitN_2.
  destruct (cut_first ":" c) as [[name arg] |]; reflexivity.
Qed.

Lemma directive_unregistered (s : addr) (c name arg : string) (w : World) :
  directive go c = (name, arg) ->
  unregistered w name ->
  InitFromEnvironment_directive go custom s c w
  = Store_ErrorProvider s (name +:+ ":" +:+ arg) factory_error w.
Proof.
  intros Hd Hun. unfold InitFromEnvironment_directive. rewrite Hd.
  rewrite (bind_done get _ w w w eq_refl).
  destruct Hun as [-> | ->]; reflexivity.
Qed.

Lemma Getenv_unset (env : list string) (k : string) :
  Forall (fun e => forall v, cut_first "=" e <> Some (k, v)) env ->
  os_Getenv env k = EmptyString.
Proof.
  induction 1 as [| e env He Henv IH]; [reflexivity |]. cbn.
  destruct (cut_first "=" e) as [[variable v] |] eqn:Hcut; [| exact IH].
  destruct (String.eqb variable k) eqn:Hk; [| exact IH].
  apply String.eqb_eq in Hk as ->. now specialize (He v).
Qed.

Lemma InitFromEnvironment_unset (s : addr) (w : World) :
  os_Getenv (environ w) ConfigEnvVar = EmptyString ->
  Store_InitFromEnvironment go custom s w = Done tt w.
Proof.
  intros Hcfg. unfold Store_InitFromEnvironment.
  rewrite (bind_done get _ w w w eq_refl). cbv zeta. rewrite Hcfg. reflexivity.
Qed.

Lemma InitFromEnvironment_set (s : addr) (w : World) :
  os_Getenv (environ w) ConfigEnvVar <> EmptyString ->
  Store_InitFromEnvironment go custom s w
  = for_range (strings_Split (os_Getenv (environ w) ConfigEnvVar) ",")
              (InitFromEnvironment_directive go custom s) w.
Proof.
  intros Hcfg. unfold Store_InitFromEnvironment.
  rewrite (bind_done get _ w w w eq_refl). cbv zeta.
  rewrite (eqb_nonempty _ Hcfg). reflexivity.
Qed.

End InitFromEnvironment.

(** C4. [InitFromEnvironment] does nothing when [CONFIGURATION_FROM] is
    unset; otherwise it runs one directive per piece of the value cut at
    every comma; a directive is cut at its first colon into a name and an
    argument (no colon: the directive is the name, the argument is empty),
    both trimmed of surrounding white space; a directive whose name has no
    factory registers under "<name>:<argument>" a provider that always
    fails with "failed to instantiate provider factory". *)
Theorem InitFromEnvironment_directives
        (go : GoLib) (custom : nat -> string -> M unit)
        (w : World) (s : addr) (st : Store) :
  stores w !! s = Some st ->
  (Forall (fun e => forall v, cut_first "=" e <> Some (ConfigEnvVar, v)) (environ w) ->
   os_Getenv (environ w) ConfigEnvVar = EmptyString /\
   Store_InitFromEnvironment go custom s w = Done tt w)
  /\
  (forall cfg,
      os_Getenv (environ w) ConfigEnvVar = cfg -> cfg <> EmptyString ->
      Store_InitFromEnvironment go custom s w
      = for_range (strings_Split cfg ",") (InitFromEnvironment_directive go custom s) w
      /\ join_with "," (strings_Split cfg ",") = cfg
      /\ Forall (no_byte ",") (strings_Split cfg ","))
  /\
  (forall c,
      (forall name arg,
          cut_first ":" c = Some (name, arg) ->
          c = name +:+ ":" +:+ arg /\ no_byte ":" name /\
          directive go c = (strings_TrimSpace go name, strings_TrimSpace go arg))
      /\
      (cut_first ":" c = None ->
       no_byte ":" c /\ directive go c = (strings_TrimSpace go c, EmptyString)))
  /\
  (forall x, ascii_only x -> strings_TrimSpace go x = trim_ascii x)
  /\
  (forall c name arg,
      directive go c = (name, arg) ->
      unregistered w name ->
      accepts st (name +:+ ":" +:+ arg) ->
      exists w' st',
        InitFromEnvironment_directive go custom s c w = Done tt w' /\
        stores w' !! s = Some st' /\
        providers st' !! (name +:+ ":" +:+ arg)
        = Some (ErrorProviderFn "failed to instantiate provider factory") /\
        forall w'',
          call_provider (ErrorProviderFn "failed to instantiate provider factory") w''
          = Done (empty_ItemList, Some "failed to instantiate provider factory") w'').
Proof.
  intros Hs. repeat apply conj.
  - intros Hunset. apply Getenv_unset in Hunset.
    split; [exact Hunset | apply InitFromEnvironment_unset, Hunset].
  - intros cfg <- Hne. split; [apply InitFromEnvironment_set, Hne |].
    apply Split_pieces.
  - intros c. split.
    + intros name arg Hcut. rewrite directive_first_colon, Hcut.
      destruct (cut_first_Some _ _ _ _ Hcut) as [-> Hno]. auto.
    + intros Hcut. rewrite directive_first_colon, Hcut.
      split; [apply cut_first_None, Hcut | reflexivity].
  - intros x. apply TrimSpace_ascii.
  - intros c name arg Hd Hun Hfree.
    rewrite (directive_unregistered go custom s c name arg w Hd Hun).
    rewrite (ErrorProvider_registers w s st _ _ Hs Hfree).
    eexists. eexists. split; [reflexivity |]. cbn.
    split; [apply lookup_insert_eq |]. cbn.
    split; [apply lookup_insert_eq | reflexivity].
Qed.

(** ** Source errors *)

Lemma file_reports (go : GoLib) (w : World) (s : addr) (filename : string)
      (refresh : bool) (fn : option (string -> result (list Item))) (err : error) :
  filename <> EmptyString ->
  readFile go (fs w) filename fn = Err err ->
  Store_file go s filename refresh fn w
  = Store_ErrorProvider s ("file:" +:+ filename) err w.
Proof.
  intros Hne Hread. unfold Store_file. rewrite (eqb_nonempty _ Hne).
  rewrite (bind_done get _ w w w eq_refl). cbv zeta. rewrite Hread. reflexivity.
Qed.

Lemma FileList_reports (go : GoLib) (w : World) (s : addr) (dirname : string)
      (err : error) :
  dirname <> EmptyString ->
  ReadDir (fs w) dirname = Err err ->
  Store_FileList go s dirname w
  = Store_ErrorProvider s ("filelist:" +:+ dirname) err w.
Proof.
  intros Hne Hdir. unfold Store_FileList. rewrite (eqb_nonempty _ Hne).
  rewrite (bind_done get _ w w w eq_refl). rewrite Hdir. reflexivity.
Qed.

Lemma source_error_reports (go : GoLib) (custom : nat -> string -> M unit)
      (w : World) (s : addr) (call : M unit) (name : string) (err : error) :
  source_error go custom w s call name err ->
  call w = Store_ErrorProvider s name err w.
Proof.
  intros [filename refresh fn e Hne Hread | dirname e Hne Hdir | dirname e Hne Hdir
          | dirname files e Hne Hdir Hfiles | c n a Hd Hun].
  - apply file_reports; assumption.
  - apply FileList_reports; assumption.
  - apply FileTree_reports; auto.
  - apply FileTree_reports; eauto.
  - apply directive_unregistered; assumption.
Qed.

(** C5, as amended. A source error is reported by one call of
    [RegisterProvider], for an error provider under a name computed from
    the source: where the store accepts the name (it is free, or override
    mode is on) the call returns, only the provider map of the store
    changes, and the error is what the provider returns whenever it is
    called; where the name is taken and override mode is off, the call
    panics as every conflicting registration does. *)
Theorem source_errors_register_error_providers
        (go : GoLib) (custom : nat -> string -> M unit)
        (w : World) (s : addr) (st : Store)
        (call : M unit) (name : string) (err : error) :
  stores w !! s = Some st ->
  source_error go custom w s call name err ->
  (accepts st name ->
   exists w',
     call w = Done tt w' /\
     stores w' = <[s := with_provider name (ErrorProviderFn err) st]> (stores w) /\
     inmems w' = inmems w /\ envps w' = envps w /\ chans w' = chans w /\
     pollers w' = pollers w /\
     forall w'', call_provider (ErrorProviderFn err) w''
                 = Done (empty_ItemList, Some err) w'')
  /\
  (is_Some (providers st !! name) -> allowProviderOverride st = false ->
   call w = Panic ("conflict on configuration provider: " +:+ name)).
Proof.
  intros Hs Hsrc. rewrite (source_error_reports go custom w s call name err Hsrc).
  split.
  - intros Hfree. rewrite (ErrorProvider_registers w s st name err Hs Hfree).
    eexists. split; [reflexivity |]. cbn. repeat split; reflexivity.
  - intros Hin Hflag. apply (RegisterProvider_conflict w s st); assumption.
Qed.

(** ** The refresh scenario *)

(** C3. The refresh scenario, run: the tick that cannot read the file
    keeps the items and the loop goes on, but [last] is then 20, so the
    next tick, at which the file can be read, does not read it: the items
    stay the old ones. After a tick whose [os.Stat] fails, by contrast,
    the next tick reads the file and replaces the items. *)
Theorem refresh_read_failure_is_not_retried (go : GoLib) :
  exists w1,
    Store_file go _store app_file true (Some raw_item) (init_world [] app_fs_loaded 10)
    = Done tt w1 /\
    pollers w1 = [app_poller 10] /\
    inmems w1 !! 0%nat = Some {| items := [NewItem "app" "old" 1] |} /\
    poll_tick go (app_poller 10) (set_fs app_fs_unreadable w1)
    = Done (app_poller 20, ReadFailed) (set_fs app_fs_unreadable w1) /\
    readFile go app_fs_readable app_file (Some raw_item) = Ok [NewItem "app" "new" 1] /\
    poll_tick go (app_poller 20) (set_fs app_fs_readable w1)
    = Done (app_poller 20, NotModified) (set_fs app_fs_readable w1) /\
    call_provider (InMemoryItems 0%nat) (set_fs app_fs_readable w1)
    = Done ({| Items := [NewItem "app" "old" 1] |}, None) (set_fs app_fs_readable w1) /\
    poll_tick go (app_poller 10) (set_fs app_fs_missing w1)
    = Done (app_poller 10, StatFailed) (set_fs app_fs_missing w1) /\
    exists w2,
      poll_tick go (app_poller 10) (set_fs app_fs_readable w1)
      = Done (app_poller 20, Reloaded) w2 /\
      inmems w2 !! 0%nat = Some {| items := [NewItem "app" "new" 1] |}.
Proof.
  eexists. split; [vm_compute; reflexivity |].
  repeat split; try (vm_compute; reflexivity).
  eexists. split; vm_compute; reflexivity.
Qed.

Lemma RegisterProvider_conflict_or_override_witness :
  (stores db_world !! _store = Some db_store /\
   providers db_store !! "db" = Some (ConstProvider empty_ItemList None)) /\
  Store_RegisterProvider _store "db" (ErrorProviderFn "boom") db_world
  = Panic "conflict on configuration provider: db".
Proof.
  split; [split; reflexivity |].
  apply (proj1 (RegisterProvider_conflict_or_override
                  db_world _store db_store "db"
                  (ConstProvider empty_ItemList None) (ErrorProviderFn "boom")
                  eq_refl eq_refl)).
  reflexivity.
Defined.

Lemma Clear_resets_providers_and_flag_only_witness :
  stores db_world !! _store = Some db_store /\
  exists w' st',
    Store_Clear _store db_world = Done _store w' /\
    stores w' !! _store = Some st' /\
    providers st' = ∅ /\
    allowProviderOverride st' = false /\
    watchers st' = watchers db_store /\
    chans w' = chans db_world /\
    providerFactories w' = providerFactories db_world.
Proof.
  split; [reflexivity |].
  apply (Clear_resets_providers_and_flag_only db_world _store db_store).
  reflexivity.
Defined.

Lemma EnvVariable_fixed_name_collides_witness :
  stores (init_world ["APP_DB_HOST=localhost"] empty_fs 0) !! _store = Some fresh_store /\
  exists p w1,
    Store_EnvVariable example_go _store [WithPriority 3]
      (init_world ["APP_DB_HOST=localhost"] empty_fs 0) = Done p w1 /\
    Store_EnvVariable example_go _store [WithAutomaticBinding "APP" "_"] w1
    = Panic "conflict on configuration provider: environ".
Proof.
  split; [reflexivity |].
  pose proof (EnvVariable_fixed_name_collides
                example_go (init_world ["APP_DB_HOST=localhost"] empty_fs 0)
                _store fresh_store [WithPriority 3] eq_refl)
    as (Hfirst & _ & Hsecond).
  destruct (Hfirst (or_introl eq_refl)) as (p & w1 & Hrun).
  exists p, w1. split; [exact Hrun |].
  apply (proj2 (Hsecond p w1 Hrun) eq_refl).
Defined.

Example second_environment_provider_panics :
  (Store_EnvVariable example_go _store [WithPriority 3] ;;;
   Store_EnvVariable example_go _store [WithAutomaticBinding "APP" "_"])
    (init_world ["APP_DB_HOST=localhost"] empty_fs 0)
  = Panic "conflict on configuration provider: environ".
Proof. vm_compute. reflexivity. Qed.

Lemma Watch_channel_holds_at_most_one_witness :
  stores db_world !! _store = Some db_store /\
  exists ch w1 st1,
    Store_Watch _store db_world = Done ch w1 /\
    chans w1 !! ch = Some {| chan_cap := 1; chan_len := 0 |} /\
    stores w1 !! _store = Some st1 /\
    ch ∈ watchers st1 /\
    forall n : nat,
    exists wn c,
      notify_times n _store w1 = Done tt wn /\
      chans wn !! ch = Some c /\
      chan_cap c = 1%nat /\
      chan_len c = Nat.min n 1 /\
      (chan_len c <= 1)%nat.
Proof.
  split; [reflexivity |].
  apply (proj1 (proj2 (Watch_channel_holds_at_most_one db_world _store db_store eq_refl))).
Defined.

(** After two notifications one read empties the channel, and a second
    read waits. *)
Example two_notifications_one_read :
  (ch <- Store_Watch _store ;;
   Store_NotifyWatchers _store ;;;
   Store_NotifyWatchers _store ;;;
   chan_recv ch ;;;
   w <- get ;;
   ret (chans w !! ch)) db_world
  = Done (Some {| chan_cap := 1; chan_len := 0 |})
         (set_stores {[ _store := {| providers := providers db_store;
                                     allowProviderOverride := false;
                                     watchers := [0%nat] |} ]}
            (set_chans {[ 0%nat := {| chan_cap := 1; chan_len := 0 |} ]} db_world))
  /\
  (ch <- Store_Watch _store ;;
   Store_NotifyWatchers _store ;;;
   Store_NotifyWatchers _store ;;;
   chan_recv ch ;;;
   chan_recv ch) db_world = Blocked.
Proof. split; vm_compute; reflexivity. Qed.

(** A send statement, by contrast, would wait on the full buffer. *)
Example blocking_send_would_block :
  (ch <- make_chan 1 ;; chan_send ch ;;; chan_send ch) db_world = Blocked.
Proof. vm_compute. reflexivity. Qed.

Example two_notifications_one_signal :
  (ch <- Store_Watch _store ;;
   Store_NotifyWatchers _store ;;;
   Store_NotifyWatchers _store ;;;
   w <- get ;;
   ret (chans w !! ch)) db_world
  = Done (Some {| chan_cap := 1; chan_len := 1 |})
         (set_stores {[ _store := {| providers := providers db_store;
                                     allowProviderOverride := false;
                                     watchers := [0%nat] |} ]}
            (set_chans {[ 0%nat := {| chan_cap := 1; chan_len := 1 |} ]} db_world)).
Proof. vm_compute. reflexivity. Qed.

Lemma conf_reads_succeed :
  all_reads_succeed example_go conf_fs "/conf" [plain "Token"; directory "db"].
Proof.
  intros f Hf.
  apply elem_of_cons in Hf as [-> | Hf]; [cbn; eauto |].
  apply elem_of_cons in Hf as [-> | Hf]; [| now apply elem_of_nil in Hf].
  cbn. eexists. split; [reflexivity |].
  intros g Hg _.
  apply elem_of_cons in Hg as [-> | Hg]; [cbn; eauto |].
  apply elem_of_cons in Hg as [-> | Hg]; [cbn; eauto |].
  now apply elem_of_nil in Hg.
Qed.

Lemma conf_one_level :
  one_level example_go conf_fs "/conf" [plain "Token"; directory "db"].
Proof.
  intros f sub g Hf Hdir Hsub Hg.
  apply elem_of_cons in Hf as [-> | Hf]; [discriminate |].
  apply elem_of_cons in Hf as [-> | Hf]; [| now apply elem_of_nil in Hf].
  cbn in Hsub. injection Hsub as <-.
  apply elem_of_cons in Hg as [-> | Hg]; [reflexivity |].
  apply elem_of_cons in Hg as [-> | Hg]; [reflexivity |].
  now apply elem_of_nil in Hg.
Qed.

Lemma FileTree_keys_and_priorities_witness :
  ReadDir (fs conf_world) "/conf" = Ok [plain "Token"; directory "db"] /\
  exists l groups,
    FileTree_files example_go (fs conf_world) "/conf" [] [plain "Token"; directory "db"]
    = Ok l /\
    l = concat groups /\
    exists c1 c2,
      groups !! 1%nat = Some [ {| key := "db"; value := c1; priority := 10 |};
                               {| key := "db"; value := c2; priority := 5 |} ].
Proof.
  split; [reflexivity |].
  destruct (FileTree_keys_and_priorities
              example_go conf_world _store fresh_store "/conf"
              [plain "Token"; directory "db"]
              ltac:(discriminate) eq_refl conf_reads_succeed conf_one_level
              eq_refl (or_introl eq_refl))
    as (l & groups & Hfiles & Hl & _ & _ & Hdb).
  exists l, groups. split; [exact Hfiles |]. split; [exact Hl |].
  apply (Hdb 1%nat (directory "db") 0 0); reflexivity.
Defined.

Example conf_items :
  FileTree_files example_go conf_fs "/conf" [] [plain "Token"; directory "db"]
  = Ok [ {| key := "Token"; value := "t0k3n"; priority := 10 |};
         {| key := "db"; value := "pg://primary"; priority := 10 |};
         {| key := "db"; value := "pg://replica"; priority := 5 |} ].
Proof. reflexivity. Qed.

Lemma FileTree_nested_directory_fails_witness :
  (stores deep_world !! _store = Some fresh_store /\
   ReadDir (fs deep_world) "/deep" = Ok [plain "a"; directory "db"] /\
   ReadDir (fs deep_world) "/deep/db" = Ok [directory "inner"]) /\
  exists err w' st',
    Store_FileTree example_go _store "/deep" deep_world = Done tt w' /\
    stores w' !! _store = Some st' /\
    providers st' !! "filetree:/deep" = Some (ErrorProviderFn err) /\
    inmems w' = inmems deep_world.
Proof.
  split; [repeat split; reflexivity |].
  destruct (FileTree_nested_directory_fails
              example_go deep_world _store fresh_store "/deep"
              [plain "a"; directory "db"] (directory "db")
              [directory "inner"] (directory "inner")
              ltac:(discriminate) eq_refl (or_introl eq_refl) eq_refl
              ltac:(apply list_elem_of_further, list_elem_of_here) eq_refl eq_refl
              ltac:(apply list_elem_of_here) eq_refl)
    as (err & w' & st' & Hrun & Hst & Hprov & _ & Hmem & _).
  exists err, w', st'. auto.
Defined.

Example deep_error :
  exists w', Store_FileTree example_go _store "/deep" deep_world = Done tt w' /\
    (st <- load_store _store ;; ret (providers st !! "filetree:/deep")) w'
    = Done (Some (ErrorProviderFn
                    "subdir db: encountered nested directory inner, max 1 level of nesting"))
           w'.
Proof. eexists. split; vm_compute; reflexivity. Qed.

Lemma EnvVariable_automatic_binding_follows_environment_witness :
  (stores (init_world app_environ empty_fs 0) !! _store = Some fresh_store /\
   environ (init_world app_environ empty_fs 0)
   = ["PATH=/bin"] ++ ["APP_DB_HOST=localhost"] ++ ["HOME=/root"]) /\
  exists (b : gmap string string) (w' : World),
    b !! "APP_DB_HOST" = Some "db_host" /\
    (provider <- Store_EnvVariable example_go _store
                   ([WithPriority 7] ++ [WithAutomaticBinding "APP" "_"] ++ []) ;;
     first <- EnvVariableProvider_Items provider ;;
     os_Unsetenv "APP_DB_HOST" ;;;
     second <- EnvVariableProvider_Items provider ;;
     ret (first, second)) (init_world app_environ empty_fs 0)
    = Done (({| Items := bound_items b 7 ["PATH=/bin"]
                           ++ [{| key := "db_host"; value := "localhost"; priority := 7 |}]
                           ++ bound_items b 7 ["HOME=/root"] |}, None),
            ({| Items := bound_items b 7 ["PATH=/bin"] ++ bound_items b 7 ["HOME=/root"] |},
             None)) w' /\
    environ w' = ["PATH=/bin"] ++ ["HOME=/root"].
Proof.
  split; [split; reflexivity |].
  apply (EnvVariable_automatic_binding_follows_environment
           example_go (init_world app_environ empty_fs 0) _store fresh_store
           [WithPriority 7] [] 7 ["PATH=/bin"] ["HOME=/root"]
           ltac:(repeat constructor; eexists; reflexivity) ltac:(constructor)
           eq_refl eq_refl (or_introl eq_refl) eq_refl).
  repeat constructor.
  - exists "PATH", "/bin". split; [reflexivity | discriminate].
  - exists "HOME", "/root". split; [reflexivity | discriminate].
Defined.

Example automatic_binding_run :
  (provider <- Store_EnvVariable example_go _store
                 [WithPriority 7; WithAutomaticBinding "APP" "_"] ;;
   first <- EnvVariableProvider_Items provider ;;
   os_Unsetenv "APP_DB_HOST" ;;;
   second <- EnvVariableProvider_Items provider ;;
   ret (fst first, fst second)) (init_world app_environ empty_fs 0)
  = Done ({| Items := [{| key := "db_host"; value := "localhost"; priority := 7 |}] |},
          {| Items := [] |})
         (set_environ ["PATH=/bin"; "HOME=/root"]
            (set_stores {[ _store := with_provider "environ" (EnvVariableItems 0%nat)
                                       fresh_store ]}
               (set_envps {[ 0%nat := {| inMemory := {| items := [] |};
                                        bindings := {[ "APP_DB_HOST" := "db_host" ]};
                                        env_priority := 7 |} ]}
                  (init_world app_environ empty_fs 0)))).
Proof. vm_compute. reflexivity. Qed.

Lemma InitFromEnvironment_directives_witness :
  (stores directive_world !! _store = Some fresh_store /\
   directive example_go " vault : secret/app " = ("vault", "secret/app")) /\
  exists w' st',
    InitFromEnvironment_directive example_go no_custom _store " vault : secret/app "
                                  directive_world = Done tt w' /\
    stores w' !! _store = Some st' /\
    providers st' !! "vault:secret/app"
    = Some (ErrorProviderFn "failed to instantiate provider factory") /\
    forall w'',
      call_provider (ErrorProviderFn "failed to instantiate provider factory") w''
      = Done (empty_ItemList, Some "failed to instantiate provider factory") w''.
Proof.
  split; [split; reflexivity |].
  apply (proj2 (proj2 (proj2 (proj2
           (InitFromEnvironment_directives example_go no_custom directive_world
              _store fresh_store eq_refl))))
           " vault : secret/app " "vault" "secret/app" eq_refl
           (or_introl eq_refl) (or_introl eq_refl)).
Defined.

(** C5. Two directives naming the same unknown factory ask for the same
    error provider twice: the second registration panics, and
    [InitFromEnvironment] with it. *)
Lemma InitFromEnvironment_repeated_unknown_factory_panics :
  stores repeated_world !! _store = Some fresh_store /\
  strings_Split (os_Getenv (environ repeated_world) ConfigEnvVar) "," = ["nope"; "nope"] /\
  unregistered repeated_world "nope" /\
  Store_InitFromEnvironment example_go no_custom _store repeated_world
  = Panic "conflict on configuration provider: nope:" /\
  ~ (exists w', Store_InitFromEnvironment example_go no_custom _store repeated_world
                = Done tt w').
Proof.
  split; [reflexivity |]. split; [reflexivity |].
  split; [left; reflexivity |].
  assert (Hpanic : Store_InitFromEnvironment example_go no_custom _store repeated_world
                   = Panic "conflict on configuration provider: nope:")
    by (vm_compute; reflexivity).
  split; [exact Hpanic |].
  intros [w' Hdone]. rewrite Hpanic in Hdone. discriminate.
Qed.

Lemma source_errors_register_error_providers_witness :
  (stores directive_world !! _store = Some fresh_store /\
   source_error example_go no_custom directive_world _store
     (InitFromEnvironment_directive example_go no_custom _store " vault : secret/app ")
     "vault:secret/app" factory_error) /\
  exists w',
    InitFromEnvironment_directive example_go no_custom _store " vault : secret/app "
                                  directive_world = Done tt w' /\
    stores w' = <[_store := with_provider "vault:secret/app"
                              (ErrorProviderFn factory_error) fresh_store]>
                  (stores directive_world).
Proof.
  assert (Hsrc : source_error example_go no_custom directive_world _store
                   (InitFromEnvironment_directive example_go no_custom _store
                                                  " vault : secret/app ")
                   "vault:secret/app" factory_error).
  { apply (unknown_factory example_go no_custom directive_world _store
             " vault : secret/app " "vault" "secret/app" eq_refl).
    left. reflexivity. }
  split; [split; [reflexivity | exact Hsrc] |].
  destruct (proj1 (source_errors_register_error_providers
                     example_go no_custom directive_world _store fresh_store
                     _ _ _ eq_refl Hsrc) (or_introl eq_refl))
    as (w' & Hrun & Hst & _).
  exists w'. split; assumption.
Defined.

(** * Further properties *)

(** ** Registering several providers *)

Lemma set_stores_same (w : World) : set_stores (stores w) w = w.
Proof. destruct w; reflexivity. Qed.

Lemma with_providers_same (st : Store) : with_providers (providers st) st = st.
Proof. destruct st; reflexivity. Qed.

(** A loop whose body is one registration in the store [s], as long as the
    world satisfies [Inv], registers every element. *)
Lemma for_range_registers {A} (s : addr) (nm : A -> string) (pv : A -> Provider)
      (body : A -> M unit) (Inv : World -> Prop) :
  (forall x w, Inv w -> body x w = Store_RegisterProvider s (nm x) (pv x) w) ->
  (forall w m, Inv w -> Inv (set_stores m w)) ->
  forall (l : list A) (w : World) (st : Store),
    Inv w ->
    stores w !! s = Some st ->
    allowProviderOverride st = true
    \/ (NoDup (map nm l) /\ Forall (fun x => providers st !! nm x = None) l) ->
    for_range l body w
    = Done tt (set_stores
                 (<[s := with_providers (insert_each nm pv (providers st) l) st]>
                    (stores w)) w).
Proof.
  intros Hbody Hinv. induction l as [| x l IH]; intros w st Hw Hs Hok.
  - cbn. unfold ret. rewrite with_providers_same, insert_id by exact Hs.
    now rewrite set_stores_same.
  - cbn [for_range]. erewrite bind_done; cycle 1.
    { rewrite (Hbody x w Hw). apply (RegisterProvider_registers w s st).
      - exact Hs.
      - destruct Hok as [Hflag | [_ Hfree]]; [right; exact Hflag |].
        left. now apply Forall_cons in Hfree as [Hx _]. }
    rewrite (IH _ (with_provider (nm x) (pv x) st)).
    + cbn. rewrite insert_insert_eq. reflexivity.
    + apply Hinv, Hw.
    + cbn. apply lookup_insert_eq.
    + destruct Hok as [Hflag | [Hnodup Hfree]]; [left; exact Hflag | right].
      cbn in Hnodup. apply NoDup_cons in Hnodup as [Hnotin Hnodup].
      apply Forall_cons in Hfree as [_ Hfree].
      split; [exact Hnodup |].
      apply Forall_forall. intros y Hy. cbn.
      rewrite lookup_insert_ne.
      * rewrite Forall_forall in Hfree. now apply Hfree.
      * intros Heq. apply Hnotin. rewrite Heq.
        apply list_elem_of_fmap. eauto.
Qed.

Lemma insert_each_other {A} (nm : A -> string) (pv : A -> Provider) (l : list A) :
  forall (m : gmap string Provider) (name : string),
    name ∉ map nm l -> insert_each nm pv m l !! name = m !! name.
Proof.
  induction l as [| x l IH]; intros m name Hnotin; [reflexivity |].
  cbn in Hnotin. apply not_elem_of_cons in Hnotin as [Hne Hnotin].
  change (insert_each nm pv (<[nm x := pv x]> m) l !! name = m !! name).
  rewrite (IH _ _ Hnotin). apply lookup_insert_ne. congruence.
Qed.

Lemma insert_each_lookup {A} (nm : A -> string) (pv : A -> Provider) (l : list A) :
  NoDup (map nm l) ->
  forall (m : gmap string Provider) (x : A),
    x ∈ l -> insert_each nm pv m l !! nm x = Some (pv x).
Proof.
  induction l as [| y l IH]; intros Hnodup m x Hx; [now apply elem_of_nil in Hx |].
  cbn in Hnodup. apply NoDup_cons in Hnodup as [Hnotin Hnodup].
  change (insert_each nm pv (<[nm y := pv y]> m) l !! nm x = Some (pv x)).
  apply elem_of_cons in Hx as [-> | Hx].
  - rewrite (insert_each_other nm pv l _ _ Hnotin). apply lookup_insert_eq.
  - now apply IH.
Qed.

(** X1. Providers registered one after the other under pairwise distinct
    names, none of which is taken, are all accepted; afterwards each name
    gives its provider, every other name gives what it gave before, and the
    override flag and the watchers are what they were. *)
Theorem register_each_distinct_names
        (w : World) (s : addr) (st : Store) (l : list (string * Provider)) :
  stores w !! s = Some st ->
  NoDup (map fst l) ->
  Forall (fun nf => providers st !! fst nf = None) l ->
  exists w' st',
    register_each s l w = Done tt w' /\
    stores w' !! s = Some st' /\
    (forall name f, (name, f) ∈ l -> providers st' !! name = Some f) /\
    (forall name, name ∉ map fst l -> providers st' !! name = providers st !! name) /\
    allowProviderOverride st' = allowProviderOverride st /\
    watchers st' = watchers st /\
    (forall other, other <> s -> stores w' !! other = stores w !! other).
Proof.
  intros Hs Hnodup Hfree. unfold register_each.
  rewrite (for_range_registers s fst snd
             (fun nf => Store_RegisterProvider s (fst nf) (snd nf)) (fun _ => True)
             (fun x w' _ => eq_refl) (fun _ _ _ => I) l w st I Hs
             (or_intror (conj Hnodup Hfree))).
  eexists. eexists. split; [reflexivity |]. cbn.
  split; [apply lookup_insert_eq |]. cbn.
  split; [| split; [| split; [reflexivity | split; [reflexivity |]]]].
  - intros name f Hin.
    apply (insert_each_lookup fst snd l Hnodup (providers st) (name, f) Hin).
  - intros name Hnotin. apply insert_each_other, Hnotin.
  - intros other Hne. apply lookup_insert_ne. congruence.
Qed.

(** ** Clear, override mode and the factories *)

(** X2. [Clear] ends override mode: after [AllowProviderOverride] and then
    [Clear], registering one name twice panics again. And after [Clear] any
    name is accepted, whatever was registered before: the provider map then
    holds that one provider, and the watchers are kept. *)
Theorem Clear_ends_override
        (w : World) (s : addr) (st : Store) (name : string) (f1 f2 : Provider) :
  stores w !! s = Some st ->
  (Store_AllowProviderOverride s ;;;
   Store_Clear s ;;;
   Store_RegisterProvider s name f1 ;;;
   Store_RegisterProvider s name f2) w
  = Panic ("conflict on configuration provider: " +:+ name)
  /\
  exists w' st',
    (Store_Clear s ;;; Store_RegisterProvider s name f1) w = Done tt w' /\
    stores w' !! s = Some st' /\
    providers st' = {[ name := f1 ]} /\
    allowProviderOverride st' = false /\
    watchers st' = watchers st.
Proof.
  intros Hs. split.
  - destruct (AllowProviderOverride_sets w s st Hs) as (w1 & Hallow & Hst1 & _).
    erewrite bind_done; [| exact Hallow].
    erewrite bind_done;
      [| apply Clear_resets; rewrite Hst1; apply lookup_insert_eq].
    erewrite bind_done;
      [| apply RegisterProvider_registers;
         [cbn; apply lookup_insert_eq | left; reflexivity]].
    eapply RegisterProvider_conflict; [cbn; apply lookup_insert_eq | | reflexivity].
    cbn. rewrite lookup_insert_eq. eauto.
  - erewrite bind_done; [| apply (Clear_resets w s st Hs)].
    erewrite RegisterProvider_registers;
      [| cbn; apply lookup_insert_eq | left; reflexivity].
    eexists. eexists. split; [reflexivity |]. cbn.
    split; [apply lookup_insert_eq |]. cbn. repeat split; reflexivity.
Qed.

Lemma RegisterProviderFactory_fresh (w : World) (name : string) (f : option Factory) :
  providerFactories w !! name = None ->
  RegisterProviderFactory name f w
  = Done tt (set_providerFactories (<[name := f]> (providerFactories w)) w).
Proof.
  intros Hfree. unfold RegisterProviderFactory.
  rewrite (bind_done get _ w w w eq_refl), Hfree. reflexivity.
Qed.

Lemma RegisterProviderFactory_conflict (w : World) (name : string) (f : option Factory) :
  is_Some (providerFactories w !! name) ->
  RegisterProviderFactory name f w
  = Panic ("conflict on configuration provider factory: " +:+ name).
Proof.
  intros [g Hg]. unfold RegisterProviderFactory.
  rewrite (bind_done get _ w w w eq_refl), Hg. reflexivity.
Qed.

(** X3. A factory name is taken for good: a second registration under it
    panics even when the store allows provider override, and [Clear] does not
    free it. A first registration changes the factory map only. *)
Theorem factory_names_are_never_freed
        (w : World) (s : addr) (st : Store) (name : string) (f1 f2 : option Factory) :
  stores w !! s = Some st ->
  (Store_AllowProviderOverride s ;;;
   RegisterProviderFactory name f1 ;;;
   Store_Clear s ;;;
   Store_AllowProviderOverride s ;;;
   RegisterProviderFactory name f2) w
  = Panic ("conflict on configuration provider factory: " +:+ name)
  /\
  (providerFactories w !! name = None ->
   exists w',
     RegisterProviderFactory name f1 w = Done tt w' /\
     providerFactories w' !! name = Some f1 /\
     (forall other, other <> name ->
                    providerFactories w' !! other = providerFactories w !! other) /\
     stores w' = stores w /\ chans w' = chans w /\ inmems w' = inmems w).
Proof.
  intros Hs. split.
  - destruct (AllowProviderOverride_sets w s st Hs)
      as (w1 & Hallow & Hst1 & _ & _ & _ & Hfact1).
    erewrite bind_done; [| exact Hallow].
    destruct (providerFactories w !! name) as [g |] eqn:Hname.
    + apply bind_panic, RegisterProviderFactory_conflict.
      rewrite Hfact1, Hname. eauto.
    + erewrite bind_done;
        [| apply RegisterProviderFactory_fresh; rewrite Hfact1; exact Hname].
      erewrite bind_done;
        [| apply Clear_resets; cbn; rewrite Hst1; apply lookup_insert_eq].
      match goal with
      | |- bind (Store_AllowProviderOverride s) _ ?w2 = _ =>
          destruct (AllowProviderOverride_sets w2 s _
                      ltac:(cbn; apply lookup_insert_eq))
            as (w3 & Hallow3 & _ & _ & _ & _ & Hfact3)
      end.
      erewrite bind_done; [| exact Hallow3].
      apply RegisterProviderFactory_conflict.
      rewrite Hfact3. cbn. rewrite lookup_insert_eq. eauto.
  - intros Hfree. rewrite (RegisterProviderFactory_fresh w name f1 Hfree).
    eexists. split; [reflexivity |]. cbn.
    split; [apply lookup_insert_eq |].
    split; [intros other Hne; apply lookup_insert_ne; congruence |].
    repeat split; reflexivity.
Qed.

(** X4. [New] returns a store that did not exist, with no provider, override
    mode off and no watcher; the stores that existed are untouched, and so
    are the channels and the factories. *)
Theorem New_is_fresh_and_empty (w : World) :
  exists s w',
    New w = Done s w' /\
    stores w !! s = None /\
    stores w' !! s = Some {| providers := ∅; allowProviderOverride := false;
                             watchers := [] |} /\
    (forall other, other <> s -> stores w' !! other = stores w !! other) /\
    chans w' = chans w /\ providerFactories w' = providerFactories w /\
    inmems w' = inmems w.
Proof.
  set (s := fresh (dom (stores w))).
  assert (Hnew : stores w !! s = None).
  { apply not_elem_of_dom. apply is_fresh. }
  exists s. eexists. split; [| split; [exact Hnew |]].
  - unfold New. rewrite (bind_done get _ w w w eq_refl). cbv zeta. fold s.
    erewrite bind_done; [| reflexivity].
    apply Clear_resets. cbn. apply lookup_insert_eq.
  - cbn. rewrite insert_insert_eq, lookup_insert_eq.
    split; [reflexivity |].
    split; [intros other Hne; apply lookup_insert_ne; congruence |].
    repeat split; reflexivity.
Qed.

(** ** Watchers across operations *)

(** X5. A watcher subscribed before [Clear] is still notified after it: the
    channel returned by [Watch] holds one signal after [Clear] and one
    [NotifyWatchers]. *)
Theorem watcher_survives_Clear (w : World) (s : addr) (st : Store) :
  stores w !! s = Some st ->
  exists ch w',
    (ch <- Store_Watch s ;;
     Store_Clear s ;;;
     Store_NotifyWatchers s ;;;
     ret ch) w = Done ch w' /\
    chans w' !! ch = Some {| chan_cap := 1; chan_len := 1 |}.
Proof.
  intros Hs.
  erewrite bind_done; [| apply (Watch_allocates w s st Hs)].
  erewrite bind_done; [| apply Clear_resets; cbn; apply lookup_insert_eq].
  erewrite bind_done; [| apply NotifyWatchers_sends; cbn; apply lookup_insert_eq].
  eexists. eexists. split; [reflexivity |]. cbn.
  rewrite (foldl_try_send_cap1 _ _ _ {| chan_cap := 1; chan_len := 0 |});
    [| apply lookup_insert_eq | reflexivity].
  rewrite bool_decide_eq_true_2; [reflexivity |].
  apply elem_of_app. right. apply list_elem_of_here.
Qed.

(** X6. Two calls of [Watch] on a store return two different channels,
    recorded after the earlier watchers in the order of the calls, and one
    [NotifyWatchers] leaves a signal in each. *)
Theorem Watch_twice_distinct_channels (w : World) (s : addr) (st : Store) :
  stores w !! s = Some st ->
  exists ch1 ch2 w' st',
    (ch1 <- Store_Watch s ;;
     ch2 <- Store_Watch s ;;
     Store_NotifyWatchers s ;;;
     ret (ch1, ch2)) w = Done (ch1, ch2) w' /\
    ch1 <> ch2 /\
    stores w' !! s = Some st' /\
    watchers st' = watchers st ++ [ch1; ch2] /\
    chans w' !! ch1 = Some {| chan_cap := 1; chan_len := 1 |} /\
    chans w' !! ch2 = Some {| chan_cap := 1; chan_len := 1 |}.
Proof.
  intros Hs.
  erewrite bind_done; [| apply (Watch_allocates w s st Hs)].
  erewrite bind_done; [| apply Watch_allocates; cbn; apply lookup_insert_eq].
  erewrite bind_done; [| apply NotifyWatchers_sends; cbn; apply lookup_insert_eq].
  set (ch1 := fresh (dom (chans w))).
  cbn. fold ch1.
  set (m1 := <[ch1 := {| chan_cap := 1; chan_len := 0 |}]> (chans w)).
  set (ch2 := fresh (dom m1)).
  assert (Hne : ch1 <> ch2).
  { intros Heq. assert (Hin : ch1 ∈ dom m1).
    { apply elem_of_dom. unfold m1. rewrite lookup_insert_eq. eauto. }
    rewrite Heq in Hin. revert Hin. apply is_fresh. }
  eexists ch1, ch2. eexists. eexists. split; [reflexivity |]. cbn.
  split; [exact Hne |]. rewrite insert_insert_eq, lookup_insert_eq.
  split; [reflexivity |]. cbn. rewrite <- app_assoc.
  split; [reflexivity |]. split.
  - rewrite (foldl_try_send_cap1 _ _ _ {| chan_cap := 1; chan_len := 0 |});
      [| rewrite lookup_insert_ne by congruence; apply lookup_insert_eq | reflexivity].
    rewrite bool_decide_eq_true_2; [reflexivity |].
    apply elem_of_app. right. apply list_elem_of_here.
  - rewrite (foldl_try_send_cap1 _ _ _ {| chan_cap := 1; chan_len := 0 |});
      [| apply lookup_insert_eq | reflexivity].
    rewrite bool_decide_eq_true_2; [reflexivity |].
    apply elem_of_app. right. apply list_elem_of_further, list_elem_of_here.
Qed.

Lemma try_send_grows (m : gmap addr Chan) (x ch : addr) (c : Chan) :
  m !! ch = Some c ->
  exists c',
    try_send m x !! ch = Some c' /\
    chan_cap c' = chan_cap c /\
    (chan_len c <= chan_len c' <= Nat.max (chan_len c) (chan_cap c))%nat.
Proof.
  intros Hch. destruct (decide (ch = x)) as [<- | Hne].
  - unfold try_send. rewrite Hch.
    destruct (chan_len c <? chan_cap c)%nat eqn:Hlt.
    + rewrite lookup_insert_eq. eexists. split; [reflexivity |]. cbn.
      apply Nat.ltb_lt in Hlt. split; [reflexivity | lia].
    + exists c. split; [exact Hch |]. split; [reflexivity | lia].
  - exists c. rewrite try_send_other by exact Hne.
    split; [exact Hch |]. split; [reflexivity | lia].
Qed.

Lemma try_send_none (m : gmap addr Chan) (x ch : addr) :
  m !! ch = None -> try_send m x !! ch = None.
Proof.
  intros Hch. destruct (decide (ch = x)) as [<- | Hne].
  - unfold try_send. rewrite Hch. exact Hch.
  - rewrite try_send_other by exact Hne. exact Hch.
Qed.

Lemma foldl_try_send_grows (l : list addr) :
  forall (m : gmap addr Chan) (ch : addr),
    match m !! ch with
    | Some c =>
        exists c',
          foldl try_send m l !! ch = Some c' /\
          chan_cap c' = chan_cap c /\
          (chan_len c <= chan_len c' <= Nat.max (chan_len c) (chan_cap c))%nat /\
          (ch ∉ l -> c' = c)
    | None => foldl try_send m l !! ch = None
    end.
Proof.
  induction l as [| x l IH]; intros m ch; cbn.
  - destruct (m !! ch) as [c |]; [| reflexivity].
    exists c. split; [reflexivity |]. split; [reflexivity |]. split; [lia | auto].
  - specialize (IH (try_send m x) ch).
    destruct (m !! ch) as [c |] eqn:Hch.
    + destruct (try_send_grows m x ch c Hch) as (c1 & Hc1 & Hcap1 & Hlen1).
      rewrite Hc1 in IH. destruct IH as (c' & Hc' & Hcap' & Hlen' & Hsame).
      exists c'. split; [exact Hc' |]. split; [congruence |].
      split; [rewrite Hcap1 in Hlen'; lia |].
      intros Hnotin. apply not_elem_of_cons in Hnotin as [Hne Hnotin].
      rewrite (Hsame Hnotin).
      rewrite try_send_other in Hc1 by exact Hne. congruence.
    + rewrite (try_send_none m x ch Hch) in IH. exact IH.
Qed.

(** X7. [NotifyWatchers] changes nothing but channel buffers: it creates no
    channel, changes no capacity, removes no pending signal, fills no
    buffer beyond its capacity, and leaves alone every channel that is not
    among the watchers of the store. *)
Theorem NotifyWatchers_only_fills_watchers (w : World) (s : addr) (st : Store) :
  stores w !! s = Some st ->
  exists w',
    Store_NotifyWatchers s w = Done tt w' /\
    stores w' = stores w /\ inmems w' = inmems w /\ envps w' = envps w /\
    providerFactories w' = providerFactories w /\
    (forall ch, chans w !! ch = None -> chans w' !! ch = None) /\
    (forall ch c,
        chans w !! ch = Some c ->
        exists c',
          chans w' !! ch = Some c' /\
          chan_cap c' = chan_cap c /\
          (chan_len c <= chan_len c' <= Nat.max (chan_len c) (chan_cap c))%nat /\
          (ch ∉ watchers st -> c' = c)).
Proof.
  intros Hs. rewrite (NotifyWatchers_sends w s st Hs).
  eexists. split; [reflexivity |]. cbn.
  repeat (split; [reflexivity |]). split.
  - intros ch Hch. pose proof (foldl_try_send_grows (watchers st) (chans w) ch) as H.
    rewrite Hch in H. exact H.
  - intros ch c Hch.
    pose proof (foldl_try_send_grows (watchers st) (chans w) ch) as H.
    rewrite Hch in H. exact H.
Qed.

(** ** The in-memory provider *)

Lemma Add_appends (inmem : addr) (l : list Item) (w : World) (p : InMemoryProvider) :
  inmems w !! inmem = Some p ->
  InMemoryProvider_Add inmem l w
  = Done inmem (set_inmems (<[inmem := {| items := items p ++ l |}]> (inmems w)) w).
Proof.
  intros Hp. unfold InMemoryProvider_Add, load_inmem.
  erewrite bind_done; [reflexivity |].
  rewrite (bind_done get _ w w w eq_refl), Hp. reflexivity.
Qed.

Lemma InMemory_in_store (w : World) (s : addr) (st : Store) (name : string) :
  stores w !! s = Some st ->
  accepts st name ->
  Store_InMemory s name w
  = Done (fresh (dom (inmems w)))
         (set_stores (<[s := with_provider name
                               (InMemoryItems (fresh (dom (inmems w)))) st]>
                        (stores w))
            (set_inmems (<[fresh (dom (inmems w)) := {| items := [] |}]> (inmems w)) w)).
Proof.
  intros Hs Hfree. unfold Store_InMemory, bind, get, modify. cbn.
  rewrite (RegisterProvider_registers _ s st); [reflexivity | exact Hs | exact Hfree].
Qed.

(** X8. The provider registered by [InMemory] reads the object that
    [InMemory] returns: it returns no item at first, and after items are
    added through the returned pointer it returns all of them, in the order
    of the additions, with no error. The object is a new one: those that
    existed keep their items. *)
Theorem InMemory_provider_sees_additions
        (w : World) (s : addr) (st : Store) (name : string) (l1 l2 : list Item) :
  stores w !! s = Some st ->
  accepts st name ->
  exists inmem w0 w',
    Store_InMemory s name w = Done inmem w0 /\
    inmems w !! inmem = None /\
    call_provider (InMemoryItems inmem) w0 = Done ({| Items := [] |}, None) w0 /\
    (InMemoryProvider_Add inmem l1 ;;; InMemoryProvider_Add inmem l2 ;;; ret tt) w0
    = Done tt w' /\
    (exists st', stores w' !! s = Some st' /\
                 providers st' !! name = Some (InMemoryItems inmem)) /\
    call_provider (InMemoryItems inmem) w' = Done ({| Items := l1 ++ l2 |}, None) w' /\
    (forall other, other <> inmem -> inmems w' !! other = inmems w !! other).
Proof.
  intros Hs Hfree. rewrite (InMemory_in_store w s st name Hs Hfree).
  eexists. eexists. eexists. split; [reflexivity |].
  split; [apply not_elem_of_dom, is_fresh |].
  split.
  { unfold call_provider, InMemoryProvider_Items, load_inmem, bind, get. cbn.
    rewrite lookup_insert_eq. reflexivity. }
  split.
  { erewrite bind_done; [| apply Add_appends; cbn; apply lookup_insert_eq].
    erewrite bind_done; [| apply Add_appends; cbn; apply lookup_insert_eq].
    reflexivity. }
  cbn. rewrite !insert_insert_eq. split; [| split].
  - eexists. split; [apply lookup_insert_eq |]. cbn. apply lookup_insert_eq.
  - unfold InMemoryProvider_Items, load_inmem, bind, get. cbn.
    rewrite lookup_insert_eq. reflexivity.
  - intros other Hne. apply lookup_insert_ne. congruence.
Qed.

(** ** The file loaders *)

Lemma file_loads_in_default_store
      (go : GoLib) (w : World) (s : addr) (st0 : Store) (filename : string)
      (refresh : bool) (fn : option (string -> result (list Item))) (vals : list Item) :
  filename <> EmptyString ->
  readFile go (fs w) filename fn = Ok vals ->
  stores w !! _store = Some st0 ->
  accepts st0 ("file:" +:+ filename) ->
  Store_file go s filename refresh fn w
  = Done tt
      (set_pollers
         (if refresh
          then pollers w ++ [{| poll_store := s; poll_filename := filename;
                                poll_fn := fn;
                                poll_inmem := fresh (dom (inmems w));
                                poll_last := now w |}]
          else pollers w)
         (set_logs (logs w ++ ["Configuration from file: " +:+ filename])
            (set_stores (<[_store := with_provider ("file:" +:+ filename)
                                       (InMemoryItems (fresh (dom (inmems w)))) st0]>
                           (stores w))
               (set_inmems (<[fresh (dom (inmems w)) := {| items := vals |}]> (inmems w))
                  w)))).
Proof.
  intros Hne Hread Hs Hfree. unfold Store_file. rewrite (eqb_nonempty _ Hne).
  rewrite (bind_done get _ w w w eq_refl). cbv zeta. rewrite Hread.
  erewrite bind_done; [| apply (InMemory_registers w st0 _ Hs Hfree)].
  erewrite bind_done; [| reflexivity].
  erewrite bind_done; [| apply Add_appends; cbn; apply lookup_insert_eq].
  cbn. rewrite insert_insert_eq.
  destruct refresh; reflexivity.
Qed.

(** X9. When the file can be read and decoded, [file] called on any store
    registers the provider "file:<filename>" in the default store: it
    returns the decoded items, the receiver, if it is another store, is not
    touched, one line is logged, and a refresh goroutine is started, with
    [last] the time before the read, only if [refresh] is set. *)
Theorem file_registers_in_default_store
        (go : GoLib) (w : World) (s : addr) (st0 : Store) (filename : string)
        (refresh : bool) (fn : option (string -> result (list Item)))
        (vals : list Item) :
  filename <> EmptyString ->
  readFile go (fs w) filename fn = Ok vals ->
  stores w !! _store = Some st0 ->
  accepts st0 ("file:" +:+ filename) ->
  exists w' st' inmem,
    Store_file go s filename refresh fn w = Done tt w' /\
    stores w' !! _store = Some st' /\
    providers st' !! ("file:" +:+ filename) = Some (InMemoryItems inmem) /\
    call_provider (InMemoryItems inmem) w' = Done ({| Items := vals |}, None) w' /\
    (forall other, other <> _store -> stores w' !! other = stores w !! other) /\
    logs w' = logs w ++ ["Configuration from file: " +:+ filename] /\
    pollers w'
    = (if refresh
       then pollers w ++ [{| poll_store := s; poll_filename := filename;
                             poll_fn := fn; poll_inmem := inmem;
                             poll_last := now w |}]
       else pollers w).
Proof.
  intros Hne Hread Hs Hfree.
  rewrite (file_loads_in_default_store go w s st0 filename refresh fn vals
             Hne Hread Hs Hfree).
  eexists. eexists. eexists. split; [reflexivity |]. cbn.
  split; [apply lookup_insert_eq |]. cbn.
  split; [apply lookup_insert_eq |].
  split.
  { unfold InMemoryProvider_Items, load_inmem, bind, get. cbn.
    rewrite lookup_insert_eq. reflexivity. }
  split; [intros other Hother; apply lookup_insert_ne; congruence |].
  split; reflexivity.
Qed.

Lemma file_name_injective (p q : string) : "file:" +:+ p = "file:" +:+ q -> p = q.
Proof. cbn. intros [= H]. exact H. Qed.

Section FileListLoads.
Context (go : GoLib) (s : addr) (dirname : string) (decoded : string -> list Item).

Lemma FileList_files_load (files : list FileInfo) :
  forall (w : World) (st0 : Store),
    stores w !! _store = Some st0 ->
    NoDup (map (fun f => filepath_Join go dirname (Name f)) files) ->
    Forall (fun f =>
              filepath_Join go dirname (Name f) <> EmptyString /\
              readFile go (fs w) (filepath_Join go dirname (Name f)) None
              = Ok (decoded (filepath_Join go dirname (Name f))) /\
              providers st0 !! ("file:" +:+ filepath_Join go dirname (Name f)) = None)
           files ->
    exists w' st',
      for_range files
        (fun file => Store_File go s (filepath_Join go dirname (Name file))) w
      = Done tt w' /\
      fs w' = fs w /\
      stores w' !! _store = Some st' /\
      (forall other, other <> _store -> stores w' !! other = stores w !! other) /\
      (forall a, a ∈ dom (inmems w) -> inmems w' !! a = inmems w !! a) /\
      (forall name,
          (forall f, f ∈ files -> name <> "file:" +:+ filepath_Join go dirname (Name f)) ->
          providers st' !! name = providers st0 !! name) /\
      (forall f, f ∈ files ->
         exists inmem,
           providers st' !! ("file:" +:+ filepath_Join go dirname (Name f))
           = Some (InMemoryItems inmem) /\
           inmems w' !! inmem
           = Some {| items := decoded (filepath_Join go dirname (Name f)) |}).
Proof.
  induction files as [| f files IH]; intros w st0 Hs Hnodup Hall.
  - exists w, st0. split; [reflexivity |]. split; [reflexivity |].
    split; [exact Hs |]. split; [reflexivity |]. split; [reflexivity |].
    split; [reflexivity |]. intros f Hf. now apply elem_of_nil in Hf.
  - cbn in Hnodup. apply NoDup_cons in Hnodup as [Hnotin Hnodup].
    apply Forall_cons in Hall as [(Hne & Hread & Hfree) Hall].
    set (path := filepath_Join go dirname (Name f)) in *.
    set (a := fresh (dom (inmems w))).
    pose proof (file_loads_in_default_store go w s st0 path false None
                  (decoded path) Hne Hread Hs (or_introl Hfree)) as Hload.
    cbn in Hload. fold a in Hload.
    match type of Hload with
    | _ = Done tt ?x => set (w1 := x) in *
    end.
    destruct (IH w1 (with_provider ("file:" +:+ path) (InMemoryItems a) st0))
      as (w' & st' & Hrun & Hfs & Hst' & Hothers & Hmem & Hnames & Hfiles).
    { cbn. apply lookup_insert_eq. }
    { exact Hnodup. }
    { apply Forall_forall. intros g Hg. rewrite Forall_forall in Hall.
      destruct (Hall g Hg) as (Hgne & Hgread & Hgfree).
      split; [exact Hgne |]. split; [exact Hgread |]. cbn.
      rewrite lookup_insert_ne; [exact Hgfree |].
      intros Heq. apply file_name_injective in Heq.
      apply Hnotin. rewrite Heq.
      apply list_elem_of_fmap. eauto. }
    exists w', st'. split.
    { cbn [for_range]. erewrite bind_done; [exact Hrun | exact Hload]. }
    split; [exact Hfs |]. split; [exact Hst' |].
    split.
    { intros other Hother. rewrite (Hothers other Hother). cbn.
      apply lookup_insert_ne. congruence. }
    split.
    { intros b Hb. rewrite Hmem.
      - cbn. apply lookup_insert_ne. intros <-. revert Hb. apply is_fresh.
      - cbn. rewrite dom_insert_L. apply elem_of_union. right. exact Hb. }
    split.
    { intros name Hname. rewrite Hnames.
      - cbn. apply lookup_insert_ne. intros Heq.
        apply (Hname f); [apply list_elem_of_here | symmetry; exact Heq].
      - intros g Hg. apply Hname. apply list_elem_of_further, Hg. }
    intros g Hg. apply elem_of_cons in Hg as [-> | Hg]; [| apply Hfiles, Hg].
    exists a. fold path. split.
    + rewrite Hnames.
      * cbn. apply lookup_insert_eq.
      * intros g Hg Heq. apply file_name_injective in Heq.
        apply Hnotin. rewrite Heq. apply list_elem_of_fmap. eauto.
    + rewrite Hmem.
      * cbn. apply lookup_insert_eq.
      * cbn. rewrite dom_insert_L. apply elem_of_union. left.
        apply elem_of_singleton. reflexivity.
Qed.

End FileListLoads.

(** X10. [FileList] on a directory whose entries have pairwise distinct,
    non-empty paths, all of which decode and none of which is registered
    yet, registers in the default store one provider "file:<path>" per
    entry, each returning the items decoded from its file; the other names
    and the other stores are not touched. *)
Theorem FileList_registers_one_provider_per_file
        (go : GoLib) (w : World) (s : addr) (st0 : Store) (dirname : string)
        (files : list FileInfo) (decoded : string -> list Item) :
  dirname <> EmptyString ->
  ReadDir (fs w) dirname = Ok files ->
  stores w !! _store = Some st0 ->
  NoDup (map (fun f => filepath_Join go dirname (Name f)) files) ->
  Forall (fun f =>
            filepath_Join go dirname (Name f) <> EmptyString /\
            readFile go (fs w) (filepath_Join go dirname (Name f)) None
            = Ok (decoded (filepath_Join go dirname (Name f))) /\
            providers st0 !! ("file:" +:+ filepath_Join go dirname (Name f)) = None)
         files ->
  exists w' st',
    Store_FileList go s dirname w = Done tt w' /\
    stores w' !! _store = Some st' /\
    (forall other, other <> _store -> stores w' !! other = stores w !! other) /\
    (forall name,
        (forall f, f ∈ files -> name <> "file:" +:+ filepath_Join go dirname (Name f)) ->
        providers st' !! name = providers st0 !! name) /\
    (forall f, f ∈ files ->
       exists inmem,
         providers st' !! ("file:" +:+ filepath_Join go dirname (Name f))
         = Some (InMemoryItems inmem) /\
         call_provider (InMemoryItems inmem) w'
         = Done ({| Items := decoded (filepath_Join go dirname (Name f)) |}, None) w').
Proof.
  intros Hne Hdir Hs Hnodup Hall.
  destruct (FileList_files_load go s dirname decoded files w st0 Hs Hnodup Hall)
    as (w' & st' & Hrun & _ & Hst' & Hothers & _ & Hnames & Hfiles).
  exists w', st'. split.
  { unfold Store_FileList. rewrite (eqb_nonempty _ Hne).
    rewrite (bind_done get _ w w w eq_refl), Hdir. exact Hrun. }
  split; [exact Hst' |]. split; [exact Hothers |]. split; [exact Hnames |].
  intros f Hf. destruct (Hfiles f Hf) as (inmem & Hprov & Hitems).
  exists inmem. split; [exact Hprov |].
  unfold call_provider, InMemoryProvider_Items, load_inmem, bind, get.
  rewrite Hitems. reflexivity.
Qed.

(** ** The refresh loop: a successful iteration *)

(** X11. An iteration that finds a later modification time and reads the
    file replaces the items of the provider by the new ones (nothing of the
    old list is kept), sets [last] to that time and sends to every watcher
    of the store; no other in-memory provider and no store changes. The
    next iteration, if the file is as it was, does nothing at all. *)
Theorem poll_tick_reloads
        (go : GoLib) (p : Poller) (w : World) (st : Store)
        (finfo : FileInfo) (vals : list Item) :
  Stat (fs w) (poll_filename p) = Ok finfo ->
  ModTime finfo > poll_last p ->
  readFile go (fs w) (poll_filename p) (poll_fn p) = Ok vals ->
  stores w !! poll_store p = Some st ->
  exists p' w',
    poll_tick go p w = Done (p', Reloaded) w' /\
    poll_last p' = ModTime finfo /\
    poll_store p' = poll_store p /\ poll_filename p' = poll_filename p /\
    poll_fn p' = poll_fn p /\ poll_inmem p' = poll_inmem p /\
    inmems w' !! poll_inmem p = Some {| items := vals |} /\
    (forall other, other <> poll_inmem p -> inmems w' !! other = inmems w !! other) /\
    stores w' = stores w /\
    (forall ch c,
        ch ∈ watchers st -> chans w !! ch = Some c -> chan_cap c = 1%nat ->
        chans w' !! ch = Some {| chan_cap := 1; chan_len := Nat.max 1 (chan_len c) |}) /\
    poll_tick go p' w' = Done (p', NotModified) w'.
Proof.
  intros Hstat Hnew Hread Hs.
  eexists. eexists. split.
  { unfold poll_tick. rewrite (bind_done get _ w w w eq_refl), Hstat.
    replace (ModTime finfo >? poll_last p) with true by (symmetry; lia).
    rewrite Hread.
    erewrite bind_done; [| reflexivity].
    erewrite bind_done; [| apply (NotifyWatchers_sends _ _ st); exact Hs].
    reflexivity. }
  cbn. repeat (split; [reflexivity |]).
  split; [apply lookup_insert_eq |].
  split; [intros other Hother; apply lookup_insert_ne; congruence |].
  split; [reflexivity |]. split.
  - intros ch c Hin Hch Hcap.
    rewrite (foldl_try_send_cap1 _ _ _ c Hch Hcap).
    rewrite bool_decide_eq_true_2 by exact Hin. reflexivity.
  - unfold poll_tick, bind, get. cbn. rewrite Hstat.
    replace (ModTime finfo >? ModTime finfo) with false by (symmetry; lia).
    reflexivity.
Qed.

(** ** Directives that name a built-in factory *)

(** X12. A directive that names a built-in factory and gives no argument
    does nothing: no provider is registered and no error is reported,
    because each loader returns at once on an empty name, whatever its
    receiver. *)
Theorem builtin_directive_without_argument_does_nothing
        (go : GoLib) (custom : nat -> string -> M unit)
        (w : World) (s : addr) (c name : string) (f : Factory) :
  directive go c = (name, EmptyString) ->
  providerFactories w !! name = Some (Some f) ->
  builtin f ->
  InitFromEnvironment_directive go custom s c w = Done tt w /\
  (forall refresh fn, Store_file go s EmptyString refresh fn w = Done tt w) /\
  Store_FileList go s EmptyString w = Done tt w /\
  Store_FileTree go s EmptyString w = Done tt w.
Proof.
  intros Hd Hf Hbuiltin. split; [| repeat split].
  unfold InitFromEnvironment_directive. rewrite Hd.
  rewrite (bind_done get _ w w w eq_refl), Hf.
  destruct Hbuiltin as [-> | [-> | ->]]; reflexivity.
Qed.

(** X13. A directive [file:<arg>] handled by the built-in factory loads the
    file into the default store, also when [InitFromEnvironment] runs on
    another store: the provider "file:<arg>" of the default store returns
    the decoded items, and every other store, the receiver included, is
    left as it was. *)
Theorem file_directive_loads_into_default_store
        (go : GoLib) (custom : nat -> string -> M unit)
        (w : World) (s : addr) (st0 : Store) (c arg : string) (vals : list Item) :
  directive go c = ("file", arg) ->
  providerFactories w !! "file" = Some (Some FactoryFile) ->
  arg <> EmptyString ->
  readFile go (fs w) arg None = Ok vals ->
  stores w !! _store = Some st0 ->
  accepts st0 ("file:" +:+ arg) ->
  exists w' st' inmem,
    InitFromEnvironment_directive go custom s c w = Done tt w' /\
    stores w' !! _store = Some st' /\
    providers st' !! ("file:" +:+ arg) = Some (InMemoryItems inmem) /\
    call_provider (InMemoryItems inmem) w' = Done ({| Items := vals |}, None) w' /\
    (forall other, other <> _store -> stores w' !! other = stores w !! other) /\
    pollers w' = pollers w.
Proof.
  intros Hd Hf Hne Hread Hs Hfree.
  unfold InitFromEnvironment_directive. rewrite Hd.
  rewrite (bind_done get _ w w w eq_refl), Hf.
  unfold run_factory, File.
  rewrite (file_loads_in_default_store go w _store st0 arg false None vals
             Hne Hread Hs Hfree).
  eexists. eexists. eexists. split; [reflexivity |]. cbn.
  split; [apply lookup_insert_eq |]. cbn.
  split; [apply lookup_insert_eq |].
  split.
  { unfold InMemoryProvider_Items, load_inmem, bind, get. cbn.
    rewrite lookup_insert_eq. reflexivity. }
  split; [intros other Hother; apply lookup_insert_ne; congruence | reflexivity].
Qed.

(** ** Directives that name no factory *)

Lemma unknown_directives_register
      (go : GoLib) (custom : nat -> string -> M unit) (s : addr) (l : list string) :
  forall (w : World) (st : Store),
    stores w !! s = Some st ->
    Forall (fun c => unregistered w (fst (directive go c))) l ->
    NoDup (map (directive_name go) l) ->
    Forall (fun c => providers st !! directive_name go c = None) l ->
    for_range l (InitFromEnvironment_directive go custom s) w
    = Done tt (set_stores
                 (<[s := with_providers
                           (insert_each (directive_name go)
                                        (fun _ => ErrorProviderFn factory_error)
                                        (providers st) l) st]> (stores w)) w).
Proof.
  induction l as [| c l IH]; intros w st Hs Hun Hnodup Hfree.
  - cbn. unfold ret. rewrite with_providers_same, insert_id by exact Hs.
    now rewrite set_stores_same.
  - apply Forall_cons in Hun as [Hc Hun].
    cbn in Hnodup. apply NoDup_cons in Hnodup as [Hnotin Hnodup].
    apply Forall_cons in Hfree as [Hcfree Hfree].
    cbn [for_range]. erewrite bind_done; cycle 1.
    { rewrite (directive_unregistered go custom s c
                 (fst (directive go c)) (snd (directive go c)) w);
        [| now destruct (directive go c) | exact Hc].
      apply (ErrorProvider_registers w s st); [exact Hs | left; exact Hcfree]. }
    rewrite (IH _ (with_provider (directive_name go c)
                                 (ErrorProviderFn factory_error) st)).
    + cbn. rewrite insert_insert_eq. reflexivity.
    + cbn. apply lookup_insert_eq.
    + exact Hun.
    + exact Hnodup.
    + apply Forall_forall. intros d Hd. cbn.
      rewrite lookup_insert_ne.
      * rewrite Forall_forall in Hfree. now apply Hfree.
      * intros Heq. apply Hnotin. rewrite Heq.
        apply list_elem_of_fmap. eauto.
Qed.

(** X14. When every directive of [CONFIGURATION_FROM] names a factory that
    is not registered, the names "<name>:<argument>" are pairwise distinct
    and none is taken in the store, [InitFromEnvironment] returns and every
    one of these names gives a provider failing with "failed to instantiate
    provider factory"; the other names give what they gave before. *)
Theorem InitFromEnvironment_registers_every_unknown_directive
        (go : GoLib) (custom : nat -> string -> M unit)
        (w : World) (s : addr) (st : Store) (cfg : string) :
  stores w !! s = Some st ->
  os_Getenv (environ w) ConfigEnvVar = cfg ->
  cfg <> EmptyString ->
  Forall (fun c => unregistered w (fst (directive go c))) (strings_Split cfg ",") ->
  NoDup (map (directive_name go) (strings_Split cfg ",")) ->
  Forall (fun c => providers st !! directive_name go c = None) (strings_Split cfg ",") ->
  exists w' st',
    Store_InitFromEnvironment go custom s w = Done tt w' /\
    stores w' !! s = Some st' /\
    (forall c, c ∈ strings_Split cfg "," ->
               providers st' !! directive_name go c
               = Some (ErrorProviderFn "failed to instantiate provider factory")) /\
    (forall name, name ∉ map (directive_name go) (strings_Split cfg ",") ->
                  providers st' !! name = providers st !! name) /\
    providerFactories w' = providerFactories w /\
    inmems w' = inmems w.
Proof.
  intros Hs Hcfg Hne Hunknown Hnodup Hfree.
  rewrite InitFromEnvironment_set by (rewrite Hcfg; exact Hne).
  rewrite Hcfg.
  rewrite (unknown_directives_register go custom s _ w st Hs Hunknown Hnodup Hfree).
  eexists. eexists. split; [reflexivity |]. cbn.
  split; [apply lookup_insert_eq |]. cbn.
  split; [| split; [| split; reflexivity]].
  - intros c Hc.
    apply (insert_each_lookup (directive_name go)
             (fun _ => ErrorProviderFn factory_error) _ Hnodup (providers st) c Hc).
  - intros name Hnotin. apply insert_each_other, Hnotin.
Qed.

(** X15. A factory registered as nil is reported like a missing one when a
    directive names it, yet its name is taken: registering a factory under
    that name afterwards panics. *)
Theorem nil_factory_is_reported_and_keeps_its_name
        (go : GoLib) (custom : nat -> string -> M unit)
        (w : World) (s : addr) (st : Store) (c name arg : string) (f : option Factory) :
  stores w !! s = Some st ->
  providerFactories w !! name = None ->
  directive go c = (name, arg) ->
  accepts st (name +:+ ":" +:+ arg) ->
  exists w' st',
    (RegisterProviderFactory name None ;;;
     InitFromEnvironment_directive go custom s c) w = Done tt w' /\
    stores w' !! s = Some st' /\
    providers st' !! (name +:+ ":" +:+ arg)
    = Some (ErrorProviderFn "failed to instantiate provider factory") /\
    RegisterProviderFactory name f w'
    = Panic ("conflict on configuration provider factory: " +:+ name).
Proof.
  intros Hs Hname Hd Hfree.
  erewrite bind_done; [| apply (RegisterProviderFactory_fresh w name None Hname)].
  rewrite (directive_unregistered go custom s c name arg _ Hd);
    [| right; cbn; apply lookup_insert_eq].
  rewrite (ErrorProvider_registers _ s st); [| exact Hs | exact Hfree].
  eexists. eexists. split; [reflexivity |]. cbn.
  split; [apply lookup_insert_eq |]. cbn.
  split; [apply lookup_insert_eq |].
  rewrite lookup_insert_eq. reflexivity.
Qed.

(** ** The environment provider: what [Items] returns *)

Lemma entry_item_short (b : gmap string string) (prio : Z) (env : string) :
  (length (entry_item b prio env) <= 1)%nat /\
  Forall (fun it => priority it = prio) (entry_item b prio env).
Proof.
  unfold entry_item. destruct (cut_first "=" env) as [[variable v] |]; [| cbn; auto].
  destruct (b !! variable); cbn; auto.
Qed.

Lemma bound_items_short (b : gmap string string) (prio : Z) (env : list string) :
  (length (bound_items b prio env) <= length env)%nat /\
  Forall (fun it => priority it = prio) (bound_items b prio env).
Proof.
  induction env as [| e env [IHlen IHprio]]; [cbn; auto |].
  destruct (entry_item_short b prio e) as [Hlen Hprio].
  change (bound_items b prio (e :: env))
    with (entry_item b prio e ++ bound_items b prio env).
  rewrite length_app. cbn [length]. split; [lia | apply Forall_app; auto].
Qed.

(** X16. On an environment whose entries all hold an "=", [Items] returns,
    with no error, one item for each entry whose variable is bound, in the
    order of the environment, each with the provider's priority: at most as
    many items as entries. Whatever the provider held before is dropped, so
    calling [Items] again returns the same list, not a longer one; bindings
    and priority are kept, and no store changes. *)
Theorem Items_rebuilds_the_list (a : addr) (w : World) (pr : EnvVariableProvider) :
  envps w !! a = Some pr ->
  Forall has_variable (environ w) ->
  exists l w1,
    EnvVariableProvider_Items a w = Done ({| Items := l |}, None) w1 /\
    l = bound_items (bindings pr) (env_priority pr) (environ w) /\
    (length l <= length (environ w))%nat /\
    Forall (fun it => priority it = env_priority pr) l /\
    EnvVariableProvider_Items a w1 = Done ({| Items := l |}, None) w1 /\
    (exists pr1, envps w1 !! a = Some pr1 /\
                 bindings pr1 = bindings pr /\ env_priority pr1 = env_priority pr) /\
    stores w1 = stores w /\ environ w1 = environ w.
Proof.
  intros Ha Hwf. rewrite (Items_bound a w pr Ha Hwf).
  eexists. eexists. split; [reflexivity |]. split; [reflexivity |].
  destruct (bound_items_short (bindings pr) (env_priority pr) (environ w))
    as [Hlen Hprio].
  split; [exact Hlen |]. split; [exact Hprio |]. split.
  - erewrite Items_bound; [| cbn; apply lookup_insert_eq | exact Hwf].
    cbn. rewrite insert_insert_eq. reflexivity.
  - cbn. split; [| split; reflexivity].
    eexists. split; [apply lookup_insert_eq |]. split; reflexivity.
Qed.

Lemma Items_loop_panics (a : addr) (l : list string) :
  Exists (fun e => cut_first "=" e = None) l ->
  forall (w : World) (pr : EnvVariableProvider),
    envps w !! a = Some pr ->
    for_range l (fun env =>
      let splittedEnv := strings_SplitN_2 env "=" in
      variable <- index_string splittedEnv 0 ;;
      value <- index_string splittedEnv 1 ;;
      p <- load_envp a ;;
      match bindings p !! variable with
      | Some k =>
          save_envp a {| inMemory := {| items := items (inMemory p) ++
                                          [{| key := k; value := value;
                                              priority := env_priority p |}] |};
                         bindings := bindings p;
                         env_priority := env_priority p |}
      | None => ret tt
      end) w
    = Panic "runtime error: index out of range".
Proof.
  induction l as [| e l IH]; intros Hex w pr Ha; [now apply Exists_nil in Hex |].
  cbn [for_range].
  destruct (cut_first "=" e) as [[variable v] |] eqn:Hcut.
  - apply Exists_cons in Hex as [Hbad | Hex]; [congruence |].
    erewrite bind_done; cycle 1.
    { pose proof (Items_loop a [e]
                    ltac:(constructor; [unfold has_variable; congruence | constructor])
                    w pr Ha) as Hone.
      cbn [for_range] in Hone. unfold bind at 1 in Hone.
      match type of Hone with
      | match ?body with _ => _ end = _ =>
          destruct body as [[] w1 | msg |] eqn:Hbody; try discriminate
      end.
      unfold ret in Hone. injection Hone as ->. reflexivity. }
    apply (IH Hex _ _ (lookup_insert_eq _ _ _)).
  - apply bind_panic. unfold strings_SplitN_2. rewrite Hcut.
    reflexivity.
Qed.

(** X17. If an entry of the environment holds no "=", [Items] panics on
    [splittedEnv[1]], whatever the bindings are. *)
Theorem Items_panics_on_entry_without_equals
        (a : addr) (w : World) (pr : EnvVariableProvider) :
  envps w !! a = Some pr ->
  Exists (fun e => cut_first "=" e = None) (environ w) ->
  EnvVariableProvider_Items a w = Panic "runtime error: index out of range".
Proof.
  intros Ha Hex. unfold EnvVariableProvider_Items.
  rewrite (bind_done get _ w w w eq_refl). cbv zeta.
  erewrite bind_done;
    [| unfold load_envp; rewrite (bind_done get _ w w w eq_refl), Ha; reflexivity].
  erewrite bind_done; [| reflexivity].
  apply bind_panic.
  apply (Items_loop_panics a (environ w) Hex _ _ (lookup_insert_eq _ _ _)).
Qed.

(** ** The environment provider: bindings *)

Lemma SplitN_2_variable (env : string) :
  strings_SplitN_2 env "=" !! 0%nat = Some (variable_of env).
Proof.
  unfold strings_SplitN_2, variable_of.
  destruct (cut_first "=" env) as [[variable v] |]; reflexivity.
Qed.

Lemma bind_automatic_binds (go : GoLib) (pfx keySeparator v : string) (l : list string) :
  forall b : gmap string string,
    (exists e, e ∈ l /\ variable_of e = v) ->
    strings_HasPrefix v pfx = true ->
    foldl (bind_automatic go pfx keySeparator) b l !! v
    = Some (automatic_key go v pfx keySeparator).
Proof.
  induction l as [| e l IH]; intros b (e0 & Hin & Hv) Hpfx;
    [now apply elem_of_nil in Hin |].
  cbn. apply elem_of_cons in Hin as [-> | Hin]; [| apply IH; eauto].
  apply bind_automatic_keeps. unfold bind_automatic.
  rewrite SplitN_2_variable, Hv, Hpfx. apply lookup_insert_eq.
Qed.

Lemma bind_automatic_skips (go : GoLib) (pfx keySeparator v : string) (l : list string) :
  forall b : gmap string string,
    (forall e, e ∈ l -> variable_of e = v -> strings_HasPrefix v pfx = false) ->
    foldl (bind_automatic go pfx keySeparator) b l !! v = b !! v.
Proof.
  induction l as [| e l IH]; intros b Hskip; [reflexivity |].
  cbn. rewrite IH by (intros e0 Hin; apply Hskip, list_elem_of_further, Hin).
  unfold bind_automatic. rewrite SplitN_2_variable.
  destruct (strings_HasPrefix (variable_of e) pfx) eqn:Hpfx; [| reflexivity].
  apply lookup_insert_ne. intros Heq.
  pose proof (Hskip e (list_elem_of_here _ _) Heq) as Hno.
  rewrite Heq in Hpfx. congruence.
Qed.

(** X18. [WithAutomaticBinding] binds every variable of the current
    environment that starts with the prefix to its derived key, replacing
    an earlier binding of that variable, and changes nothing else: the
    binding of any other variable, the items and the priority are kept.
    An entry that holds no "=" counts as a variable of that name. *)
Theorem WithAutomaticBinding_binds_prefixed_variables
        (go : GoLib) (a : addr) (pfx keySeparator : string)
        (w : World) (pr : EnvVariableProvider) :
  envps w !! a = Some pr ->
  exists w' pr',
    apply_option go (WithAutomaticBinding pfx keySeparator) a w = Done tt w' /\
    envps w' !! a = Some pr' /\
    inMemory pr' = inMemory pr /\ env_priority pr' = env_priority pr /\
    (forall v,
        (exists e, e ∈ environ w /\ variable_of e = v) ->
        strings_HasPrefix v pfx = true ->
        bindings pr' !! v = Some (automatic_key go v pfx keySeparator)) /\
    (forall v,
        (forall e, e ∈ environ w -> variable_of e = v ->
                   strings_HasPrefix v pfx = false) ->
        bindings pr' !! v = bindings pr !! v) /\
    stores w' = stores w /\ environ w' = environ w /\
    (forall other, other <> a -> envps w' !! other = envps w !! other).
Proof.
  intros Ha. rewrite (WithAutomaticBinding_binds go a pfx keySeparator w pr Ha).
  eexists. eexists. split; [reflexivity |]. cbn.
  split; [apply lookup_insert_eq |]. cbn.
  split; [reflexivity |]. split; [reflexivity |].
  split; [intros v Hv Hpfx; now apply bind_automatic_binds |].
  split; [intros v Hv; now apply bind_automatic_skips |].
  split; [reflexivity |]. split; [reflexivity |].
  intros other Hother. apply lookup_insert_ne. congruence.
Qed.

Lemma bound_items_unbound (b : gmap string string) (prio : Z) (env : list string) :
  (forall e, e ∈ env -> b !! variable_of e = None) ->
  bound_items b prio env = [].
Proof.
  induction env as [| e env IH]; intros Hnone; [reflexivity |].
  change (bound_items b prio (e :: env))
    with (entry_item b prio e ++ bound_items b prio env).
  rewrite IH by (intros e0 Hin; apply Hnone, list_elem_of_further, Hin).
  pose proof (Hnone e (list_elem_of_here _ _)) as He.
  unfold entry_item, variable_of in *.
  destruct (cut_first "=" e) as [[variable v] |]; [| reflexivity].
  rewrite He. reflexivity.
Qed.

(** X19. The automatic bindings are those of the environment at
    construction: when the environment is later replaced by entries whose
    variables were not there at construction, [Items] returns no item,
    even for variables that start with the prefix. *)
Theorem automatic_bindings_are_taken_at_construction
        (go : GoLib) (w : World) (s : addr) (st : Store)
        (pfx keySeparator : string) (later : list string) :
  stores w !! s = Some st ->
  accepts st "environ" ->
  Forall has_variable later ->
  (forall e e0, e ∈ later -> e0 ∈ environ w -> variable_of e0 <> variable_of e) ->
  exists w',
    (provider <- Store_EnvVariable go s [WithAutomaticBinding pfx keySeparator] ;;
     modify (set_environ later) ;;;
     EnvVariableProvider_Items provider) w
    = Done ({| Items := [] |}, None) w'.
Proof.
  intros Hs Hfree Hwf Hnew.
  erewrite bind_done;
    [| apply (EnvVariable_automatic go w s st [] [] pfx keySeparator
                (List.Forall_nil _) (List.Forall_nil _) Hs Hfree)].
  erewrite bind_done; [| reflexivity].
  erewrite Items_bound; [| cbn; apply lookup_insert_eq | exact Hwf].
  rewrite bound_items_unbound; [eauto |].
  cbn. intros e He. rewrite bind_automatic_skips; [apply lookup_empty |].
  intros e0 He0 Heq. exfalso. apply (Hnew e e0 He He0 Heq).
Qed.

Lemma cut_first_join (sep : ascii) (a b : string) :
  no_byte sep a -> cut_first sep (a +:+ String sep b) = Some (a, b).
Proof.
  unfold no_byte. induction a as [| c a IH]; intros Hno.
  - change (cut_first sep (String sep b) = Some (EmptyString, b)).
    cbn. rewrite Ascii.eqb_refl. reflexivity.
  - change (cut_first sep (String c (a +:+ String sep b)) = Some (String c a, b)).
    cbn in Hno. apply not_elem_of_cons in Hno as [Hne Hno].
    cbn. destruct (Ascii.eqb c sep) eqn:Hc; [apply Ascii.eqb_eq in Hc; congruence |].
    rewrite (IH Hno). reflexivity.
Qed.

Lemma BindEnv_binds (a : addr) (v k : string) (w : World) (pr : EnvVariableProvider) :
  envps w !! a = Some pr ->
  EnvVariableProvider_BindEnv a v k w
  = Done tt (set_envps (<[a := with_bindings (<[v := k]> (bindings pr)) pr]> (envps w)) w).
Proof.
  intros Ha. unfold EnvVariableProvider_BindEnv, load_envp.
  erewrite bind_done; [reflexivity |].
  rewrite (bind_done get _ w w w eq_refl), Ha. reflexivity.
Qed.

(** X20. Of two [BindEnv] calls for one variable the later one decides the
    key; and the value of the item is all that follows the first "=" of the
    entry, further "=" included. *)
Theorem BindEnv_last_binding_decides
        (a : addr) (w : World) (pr : EnvVariableProvider)
        (v k1 k2 x : string) (before after : list string) :
  envps w !! a = Some pr ->
  no_byte "=" v ->
  environ w = before ++ [v +:+ "=" +:+ x] ++ after ->
  Forall has_variable (before ++ after) ->
  exists w',
    (EnvVariableProvider_BindEnv a v k1 ;;;
     EnvVariableProvider_BindEnv a v k2 ;;;
     EnvVariableProvider_Items a) w
    = Done ({| Items :=
                 bound_items (<[v := k2]> (bindings pr)) (env_priority pr) before
                 ++ [{| key := k2; value := x; priority := env_priority pr |}]
                 ++ bound_items (<[v := k2]> (bindings pr)) (env_priority pr) after |},
            None) w'.
Proof.
  intros Ha Hv Henv Hwf.
  assert (Hcut : cut_first "=" (v +:+ "=" +:+ x) = Some (v, x))
    by (apply (cut_first_join "=" v x Hv)).
  assert (Hwf1 : Forall has_variable (environ w)).
  { rewrite Henv. apply Forall_app in Hwf as [Hb1 Ha1].
    apply Forall_app. split; [exact Hb1 |].
    constructor; [unfold has_variable; congruence | exact Ha1]. }
  erewrite bind_done; [| apply (BindEnv_binds a v k1 w pr Ha)].
  erewrite bind_done; [| apply BindEnv_binds; cbn; apply lookup_insert_eq].
  erewrite Items_bound; [| cbn; apply lookup_insert_eq | cbn; exact Hwf1].
  eexists. cbn. rewrite Henv, !insert_insert_eq.
  unfold bound_items. rewrite !flat_map_app. cbn [flat_map].
  unfold entry_item at 2. rewrite Hcut, lookup_insert_eq, app_nil_r.
  reflexivity.
Qed.

(** ** Priority by capitalisation, for names that start with an ASCII byte *)

Lemma byte_nonneg (c : ascii) : 0 <= byte c.
Proof. unfold byte. apply N2Z.is_nonneg. Qed.

(** X21. For a file whose name starts with an ASCII byte, [readItem] gives
    priority 10 exactly when that byte is one of A..Z, and 5 otherwise
    (digits, lower-case letters, a dot, an underscore, ...), whatever
    follows in the name and whatever the Unicode tables say; the value is
    the content of the file as read and the key is the one given. *)
Theorem readItem_ascii_priority
        (go : GoLib) (fsys : FS) (path itemKey content : string)
        (c : ascii) (rest : string) :
  is_ascii_byte c = true ->
  ReadFile fsys path = Ok content ->
  readItem go fsys path (String c rest) itemKey
  = Ok {| key := itemKey; value := content;
          priority := if byte_in 65 90 c then 10 else 5 |}.
Proof.
  intros Hascii Hread. unfold readItem. rewrite Hread.
  unfold utf8_DecodeRuneInString. cbn [bytes].
  unfold is_ascii_byte in Hascii. rewrite Hascii.
  unfold unicode_IsUpper, byte_in, NewItem.
  pose proof (byte_nonneg c) as Hpos. apply Z.ltb_lt in Hascii.
  unfold RuneSelf in Hascii.
  replace ((0 <=? byte c) && (byte c <=? 255)) with true by (symmetry; lia).
  replace ((192 <=? byte c) && (byte c <=? 214)) with false by (symmetry; lia).
  replace ((216 <=? byte c) && (byte c <=? 222)) with false by (symmetry; lia).
  rewrite !orb_false_r. reflexivity.
Qed.

(** ** The further properties on worked inputs *)

Lemma register_each_distinct_names_witness :
  (stores db_world !! _store = Some db_store /\
   NoDup (map fst [("a", ErrorProviderFn "e1"); ("b", InMemoryItems 0%nat)])) /\
  exists w' st',
    register_each _store [("a", ErrorProviderFn "e1"); ("b", InMemoryItems 0%nat)] db_world
    = Done tt w' /\
    stores w' !! _store = Some st' /\
    providers st' !! "a" = Some (ErrorProviderFn "e1") /\
    providers st' !! "b" = Some (InMemoryItems 0%nat) /\
    providers st' !! "db" = providers db_store !! "db".
Proof.
  assert (Hnodup : NoDup (map fst [("a", ErrorProviderFn "e1"); ("b", InMemoryItems 0%nat)])).
  { cbn. repeat constructor; [| apply not_elem_of_nil].
    intros Hin. apply elem_of_cons in Hin as [Heq | Hin];
      [discriminate | now apply elem_of_nil in Hin]. }
  split; [split; [reflexivity | exact Hnodup] |].
  destruct (register_each_distinct_names db_world _store db_store
              [("a", ErrorProviderFn "e1"); ("b", InMemoryItems 0%nat)]
              eq_refl Hnodup ltac:(repeat constructor))
    as (w' & st' & Hrun & Hst & Hin & Hout & _).
  exists w', st'. split; [exact Hrun |]. split; [exact Hst |].
  split; [apply Hin, list_elem_of_here |].
  split; [apply Hin, list_elem_of_further, list_elem_of_here |].
  apply Hout. cbn. intros Hdb.
  apply elem_of_cons in Hdb as [Heq | Hdb]; [discriminate |].
  apply elem_of_cons in Hdb as [Heq | Hdb]; [discriminate |].
  now apply elem_of_nil in Hdb.
Defined.

Lemma Clear_ends_override_witness :
  stores db_world !! _store = Some db_store /\
  (Store_AllowProviderOverride _store ;;;
   Store_Clear _store ;;;
   Store_RegisterProvider _store "db" (ErrorProviderFn "e1") ;;;
   Store_RegisterProvider _store "db" (ErrorProviderFn "e2")) db_world
  = Panic "conflict on configuration provider: db".
Proof.
  split; [reflexivity |].
  apply (proj1 (Clear_ends_override db_world _store db_store "db"
                  (ErrorProviderFn "e1") (ErrorProviderFn "e2") eq_refl)).
Defined.

Lemma factory_names_are_never_freed_witness :
  stores db_world !! _store = Some db_store /\
  (Store_AllowProviderOverride _store ;;;
   RegisterProviderFactory "vault" (Some (FactoryCustom 0)) ;;;
   Store_Clear _store ;;;
   Store_AllowProviderOverride _store ;;;
   RegisterProviderFactory "vault" (Some (FactoryCustom 1))) db_world
  = Panic "conflict on configuration provider factory: vault".
Proof.
  split; [reflexivity |].
  apply (proj1 (factory_names_are_never_freed db_world _store db_store "vault"
                  (Some (FactoryCustom 0)) (Some (FactoryCustom 1)) eq_refl)).
Defined.

Lemma watcher_survives_Clear_witness :
  stores db_world !! _store = Some db_store /\
  exists ch w',
    (ch <- Store_Watch _store ;;
     Store_Clear _store ;;;
     Store_NotifyWatchers _store ;;;
     ret ch) db_world = Done ch w' /\
    chans w' !! ch = Some {| chan_cap := 1; chan_len := 1 |}.
Proof.
  split; [reflexivity |].
  apply (watcher_survives_Clear db_world _store db_store eq_refl).
Defined.

Lemma Watch_twice_distinct_channels_witness :
  stores db_world !! _store = Some db_store /\
  exists ch1 ch2 w',
    (ch1 <- Store_Watch _store ;;
     ch2 <- Store_Watch _store ;;
     Store_NotifyWatchers _store ;;;
     ret (ch1, ch2)) db_world = Done (ch1, ch2) w' /\
    ch1 <> ch2.
Proof.
  split; [reflexivity |].
  destruct (Watch_twice_distinct_channels db_world _store db_store eq_refl)
    as (ch1 & ch2 & w' & st' & Hrun & Hne & _).
  exists ch1, ch2, w'. auto.
Defined.

Lemma NotifyWatchers_only_fills_watchers_witness :
  stores (watched_world empty_fs) !! _store = Some watched_store /\
  exists w',
    Store_NotifyWatchers _store (watched_world empty_fs) = Done tt w' /\
    stores w' = stores (watched_world empty_fs) /\
    chans w' !! 1%nat = None.
Proof.
  split; [reflexivity |].
  destruct (NotifyWatchers_only_fills_watchers (watched_world empty_fs) _store
              watched_store eq_refl)
    as (w' & Hrun & Hst & _ & _ & _ & Hnone & _).
  exists w'. split; [exact Hrun |]. split; [exact Hst |].
  apply Hnone. reflexivity.
Defined.

Lemma InMemory_provider_sees_additions_witness :
  stores db_world !! _store = Some db_store /\
  exists inmem w0 w',
    Store_InMemory _store "override" db_world = Done inmem w0 /\
    (InMemoryProvider_Add inmem [NewItem "a" "1" 0] ;;;
     InMemoryProvider_Add inmem [NewItem "b" "2" 0] ;;; ret tt) w0 = Done tt w' /\
    call_provider (InMemoryItems inmem) w'
    = Done ({| Items := [NewItem "a" "1" 0] ++ [NewItem "b" "2" 0] |}, None) w'.
Proof.
  split; [reflexivity |].
  destruct (InMemory_provider_sees_additions db_world _store db_store "override"
              [NewItem "a" "1" 0] [NewItem "b" "2" 0] eq_refl (or_introl eq_refl))
    as (inmem & w0 & w' & Hnew & _ & _ & Hadd & _ & Hcall & _).
  exists inmem, w0, w'. auto.
Defined.

Lemma file_registers_in_default_store_witness :
  (readFile example_go app_fs_loaded app_file (Some raw_item) = Ok [NewItem "app" "old" 1] /\
   stores (two_store_world [] app_fs_loaded) !! _store = Some fresh_store) /\
  exists w' st' inmem,
    Store_file example_go 1%nat app_file true (Some raw_item)
               (two_store_world [] app_fs_loaded) = Done tt w' /\
    stores w' !! _store = Some st' /\
    providers st' !! "file:/etc/app.yaml" = Some (InMemoryItems inmem) /\
    stores w' !! 1%nat = Some fresh_store.
Proof.
  split; [split; reflexivity |].
  destruct (file_registers_in_default_store
              example_go (two_store_world [] app_fs_loaded) 1%nat fresh_store app_file
              true (Some raw_item) [NewItem "app" "old" 1]
              ltac:(discriminate) eq_refl eq_refl (or_introl eq_refl))
    as (w' & st' & inmem & Hrun & Hst & Hprov & _ & Hother & _).
  exists w', st', inmem. split; [exact Hrun |]. split; [exact Hst |].
  split; [exact Hprov |].
  etransitivity; [apply Hother; discriminate | reflexivity].
Defined.

Lemma FileList_registers_one_provider_per_file_witness :
  ReadDir (fs (two_store_world [] confd_fs)) "/etc/conf.d"
  = Ok [plain "a.yaml"; plain "b.yaml"] /\
  exists w' st' inmem,
    Store_FileList raw_go 1%nat "/etc/conf.d" (two_store_world [] confd_fs) = Done tt w' /\
    stores w' !! _store = Some st' /\
    providers st' !! "file:/etc/conf.d/b.yaml" = Some (InMemoryItems inmem) /\
    call_provider (InMemoryItems inmem) w'
    = Done ({| Items := [NewItem "app" "B" 1] |}, None) w'.
Proof.
  split; [reflexivity |].
  destruct (FileList_registers_one_provider_per_file
              raw_go (two_store_world [] confd_fs) 1%nat fresh_store "/etc/conf.d"
              [plain "a.yaml"; plain "b.yaml"]
              (fun p => if String.eqb p "/etc/conf.d/a.yaml"
                        then [NewItem "app" "A" 1] else [NewItem "app" "B" 1])
              ltac:(discriminate) eq_refl eq_refl)
    as (w' & st' & Hrun & Hst & _ & _ & Hfiles).
  - cbn. repeat constructor; [| apply not_elem_of_nil].
    intros Hin. apply elem_of_cons in Hin as [Heq | Hin];
      [discriminate | now apply elem_of_nil in Hin].
  - repeat constructor; discriminate.
  - destruct (Hfiles (plain "b.yaml")
                ltac:(apply list_elem_of_further, list_elem_of_here))
      as (inmem & Hprov & Hcall).
    exists w', st', inmem. auto.
Defined.

Lemma poll_tick_reloads_witness :
  (Stat (fs (watched_world app_fs_readable)) app_file
   = Ok {| Name := app_file; IsDir := false; ModTime := 20 |} /\
   stores (watched_world app_fs_readable) !! _store = Some watched_store) /\
  exists p' w',
    poll_tick example_go (app_poller 10) (watched_world app_fs_readable)
    = Done (p', Reloaded) w' /\
    poll_last p' = 20 /\
    inmems w' !! 0%nat = Some {| items := [NewItem "app" "new" 1] |} /\
    chans w' !! 0%nat = Some {| chan_cap := 1; chan_len := 1 |} /\
    poll_tick example_go p' w' = Done (p', NotModified) w'.
Proof.
  split; [split; reflexivity |].
  destruct (poll_tick_reloads example_go (app_poller 10) (watched_world app_fs_readable)
              watched_store {| Name := app_file; IsDir := false; ModTime := 20 |}
              [NewItem "app" "new" 1] eq_refl ltac:(cbn; lia) eq_refl eq_refl)
    as (p' & w' & Hrun & Hlast & _ & _ & _ & _ & Hitems & _ & _ & Hch & Hnext).
  exists p', w'. split; [exact Hrun |]. split; [exact Hlast |].
  split; [exact Hitems |]. split; [| exact Hnext].
  apply (Hch 0%nat {| chan_cap := 1; chan_len := 0 |});
    [apply list_elem_of_here | reflexivity | reflexivity].
Defined.

Lemma builtin_directive_without_argument_does_nothing_witness :
  (directive example_go " filetree : " = ("filetree", EmptyString) /\
   providerFactories db_world !! "filetree" = Some (Some FactoryFileTree)) /\
  InitFromEnvironment_directive example_go no_custom _store " filetree : " db_world
  = Done tt db_world.
Proof.
  split; [split; reflexivity |].
  apply (proj1 (builtin_directive_without_argument_does_nothing
                  example_go no_custom db_world _store " filetree : " "filetree"
                  FactoryFileTree eq_refl eq_refl
                  (or_intror (or_intror eq_refl)))).
Defined.

Lemma file_directive_loads_into_default_store_witness :
  (directive raw_go "file: /etc/conf.d/a.yaml" = ("file", "/etc/conf.d/a.yaml") /\
   stores (two_store_world [] confd_fs) !! _store = Some fresh_store) /\
  exists w' st' inmem,
    InitFromEnvironment_directive raw_go no_custom 1%nat "file: /etc/conf.d/a.yaml"
                                  (two_store_world [] confd_fs) = Done tt w' /\
    stores w' !! _store = Some st' /\
    providers st' !! "file:/etc/conf.d/a.yaml" = Some (InMemoryItems inmem) /\
    stores w' !! 1%nat = Some fresh_store.
Proof.
  split; [split; reflexivity |].
  destruct (file_directive_loads_into_default_store
              raw_go no_custom (two_store_world [] confd_fs) 1%nat fresh_store
              "file: /etc/conf.d/a.yaml" "/etc/conf.d/a.yaml" [NewItem "app" "A" 1]
              eq_refl eq_refl ltac:(discriminate) eq_refl eq_refl (or_introl eq_refl))
    as (w' & st' & inmem & Hrun & Hst & Hprov & _ & Hother & _).
  exists w', st', inmem. split; [exact Hrun |]. split; [exact Hst |].
  split; [exact Hprov |].
  etransitivity; [apply Hother; discriminate | reflexivity].
Defined.

Lemma InitFromEnvironment_registers_every_unknown_directive_witness :
  (stores (init_world ["CONFIGURATION_FROM=vault:a, consul : b"] empty_fs 0) !! _store
   = Some fresh_store /\
   strings_Split "vault:a, consul : b" "," = ["vault:a"; " consul : b"]) /\
  exists w' st',
    Store_InitFromEnvironment example_go no_custom _store
      (init_world ["CONFIGURATION_FROM=vault:a, consul : b"] empty_fs 0) = Done tt w' /\
    stores w' !! _store = Some st' /\
    providers st' !! "vault:a"
    = Some (ErrorProviderFn "failed to instantiate provider factory") /\
    providers st' !! "consul:b"
    = Some (ErrorProviderFn "failed to instantiate provider factory").
Proof.
  split; [split; reflexivity |].
  destruct (InitFromEnvironment_registers_every_unknown_directive
              example_go no_custom
              (init_world ["CONFIGURATION_FROM=vault:a, consul : b"] empty_fs 0)
              _store fresh_store "vault:a, consul : b" eq_refl eq_refl
              ltac:(discriminate))
    as (w' & st' & Hrun & Hst & Hin & _).
  - repeat constructor; left; reflexivity.
  - cbn. repeat constructor; [| apply not_elem_of_nil].
    intros Hdup. apply elem_of_cons in Hdup as [Heq | Hdup];
      [discriminate | now apply elem_of_nil in Hdup].
  - repeat constructor.
  - exists w', st'. split; [exact Hrun |]. split; [exact Hst |]. split.
    + apply (Hin "vault:a"). apply list_elem_of_here.
    + apply (Hin " consul : b"). apply list_elem_of_further, list_elem_of_here.
Defined.

Lemma nil_factory_is_reported_and_keeps_its_name_witness :
  (stores db_world !! _store = Some db_store /\
   providerFactories db_world !! "vault" = None /\
   directive example_go "vault:kv" = ("vault", "kv")) /\
  exists w' st',
    (RegisterProviderFactory "vault" None ;;;
     InitFromEnvironment_directive example_go no_custom _store "vault:kv") db_world
    = Done tt w' /\
    stores w' !! _store = Some st' /\
    providers st' !! "vault:kv"
    = Some (ErrorProviderFn "failed to instantiate provider factory") /\
    RegisterProviderFactory "vault" (Some (FactoryCustom 0)) w'
    = Panic "conflict on configuration provider factory: vault".
Proof.
  split; [repeat split; reflexivity |].
  apply (nil_factory_is_reported_and_keeps_its_name
           example_go no_custom db_world _store db_store "vault:kv" "vault" "kv"
           (Some (FactoryCustom 0)) eq_refl eq_refl eq_refl (or_introl eq_refl)).
Defined.

Lemma Items_rebuilds_the_list_witness :
  (envps (home_world ["HOME=/root"; "PATH=/bin"]) !! 0%nat = Some home_provider /\
   Forall has_variable (environ (home_world ["HOME=/root"; "PATH=/bin"]))) /\
  exists l w1,
    EnvVariableProvider_Items 0%nat (home_world ["HOME=/root"; "PATH=/bin"])
    = Done ({| Items := l |}, None) w1 /\
    l = [{| key := "home"; value := "/root"; priority := 4 |}] /\
    EnvVariableProvider_Items 0%nat w1 = Done ({| Items := l |}, None) w1.
Proof.
  assert (Hwf : Forall has_variable (environ (home_world ["HOME=/root"; "PATH=/bin"])))
    by (repeat constructor; discriminate).
  split; [split; [reflexivity | exact Hwf] |].
  destruct (Items_rebuilds_the_list 0%nat (home_world ["HOME=/root"; "PATH=/bin"])
              home_provider eq_refl Hwf)
    as (l & w1 & Hrun & Hl & _ & _ & Hagain & _).
  exists l, w1. split; [exact Hrun |]. split; [| exact Hagain].
  rewrite Hl. reflexivity.
Defined.

Lemma Items_panics_on_entry_without_equals_witness :
  (envps (home_world ["HOME=/root"; "BROKEN"]) !! 0%nat = Some home_provider /\
   cut_first "=" "BROKEN" = None) /\
  EnvVariableProvider_Items 0%nat (home_world ["HOME=/root"; "BROKEN"])
  = Panic "runtime error: index out of range".
Proof.
  split; [split; reflexivity |].
  apply (Items_panics_on_entry_without_equals 0%nat
           (home_world ["HOME=/root"; "BROKEN"]) home_provider eq_refl).
  apply Exists_cons. right. apply Exists_cons. left. reflexivity.
Defined.

Lemma WithAutomaticBinding_binds_prefixed_variables_witness :
  envps (home_world ["HOME=/root"; "APP_DB_HOST=localhost"]) !! 0%nat = Some home_provider /\
  exists w' pr',
    apply_option example_go (WithAutomaticBinding "APP" ".") 0%nat
                 (home_world ["HOME=/root"; "APP_DB_HOST=localhost"]) = Done tt w' /\
    envps w' !! 0%nat = Some pr' /\
    bindings pr' !! "APP_DB_HOST" = Some "db.host" /\
    bindings pr' !! "HOME" = Some "home".
Proof.
  split; [reflexivity |].
  destruct (WithAutomaticBinding_binds_prefixed_variables
              example_go 0%nat "APP" "."
              (home_world ["HOME=/root"; "APP_DB_HOST=localhost"]) home_provider eq_refl)
    as (w' & pr' & Hrun & Hpr & _ & _ & Hbound & Hkept & _).
  exists w', pr'. split; [exact Hrun |]. split; [exact Hpr |]. split.
  - apply (Hbound "APP_DB_HOST"); [| reflexivity].
    exists "APP_DB_HOST=localhost". split; [| reflexivity].
    apply list_elem_of_further, list_elem_of_here.
  - rewrite (Hkept "HOME"); [reflexivity |].
    intros e He Hv. reflexivity.
Defined.

Lemma automatic_bindings_are_taken_at_construction_witness :
  (stores (init_world ["APP_DB_HOST=localhost"] empty_fs 0) !! _store = Some fresh_store /\
   Forall has_variable ["APP_CACHE=redis"]) /\
  exists w',
    (provider <- Store_EnvVariable example_go _store [WithAutomaticBinding "APP" "_"] ;;
     modify (set_environ ["APP_CACHE=redis"]) ;;;
     EnvVariableProvider_Items provider) (init_world ["APP_DB_HOST=localhost"] empty_fs 0)
    = Done ({| Items := [] |}, None) w'.
Proof.
  assert (Hwf : Forall has_variable ["APP_CACHE=redis"])
    by (repeat constructor; discriminate).
  split; [split; [reflexivity | exact Hwf] |].
  apply (automatic_bindings_are_taken_at_construction
           example_go (init_world ["APP_DB_HOST=localhost"] empty_fs 0) _store fresh_store
           "APP" "_" ["APP_CACHE=redis"] eq_refl (or_introl eq_refl) Hwf).
  intros e e0 He He0.
  apply elem_of_cons in He as [-> | He]; [| now apply elem_of_nil in He].
  apply elem_of_cons in He0 as [-> | He0]; [| now apply elem_of_nil in He0].
  discriminate.
Defined.

Lemma BindEnv_last_binding_decides_witness :
  (envps (home_world ["HOME=/root"; "DSN=user=app host=db"]) !! 0%nat = Some home_provider /\
   no_byte "=" "DSN") /\
  exists w',
    (EnvVariableProvider_BindEnv 0%nat "DSN" "dsn-old" ;;;
     EnvVariableProvider_BindEnv 0%nat "DSN" "dsn" ;;;
     EnvVariableProvider_Items 0%nat) (home_world ["HOME=/root"; "DSN=user=app host=db"])
    = Done ({| Items :=
                 bound_items (<["DSN" := "dsn"]> (bindings home_provider)) 4 ["HOME=/root"]
                 ++ [{| key := "dsn"; value := "user=app host=db"; priority := 4 |}]
                 ++ bound_items (<["DSN" := "dsn"]> (bindings home_provider)) 4 [] |},
            None) w'.
Proof.
  assert (Hno : no_byte "=" "DSN").
  { unfold no_byte. cbn. intros Hin.
    repeat (apply elem_of_cons in Hin as [Heq | Hin]; [discriminate |]).
    now apply elem_of_nil in Hin. }
  split; [split; [reflexivity | exact Hno] |].
  apply (BindEnv_last_binding_decides 0%nat
           (home_world ["HOME=/root"; "DSN=user=app host=db"]) home_provider
           "DSN" "dsn-old" "dsn" "user=app host=db" ["HOME=/root"] []
           eq_refl Hno eq_refl).
  repeat constructor. discriminate.
Defined.

Lemma readItem_ascii_priority_witness :
  (is_ascii_byte "." = true /\ ReadFile conf_fs "/conf/Token" = Ok "t0k3n") /\
  readItem example_go conf_fs "/conf/Token" ".hidden" "k"
  = Ok {| key := "k"; value := "t0k3n"; priority := 5 |}.
Proof.
  split; [split; reflexivity |].
  apply (readItem_ascii_priority example_go conf_fs "/conf/Token" "k" "t0k3n"
           "."%char "hidden" eq_refl eq_refl).
Defined.

(** ** The refresh goroutine and [Clear] *)

Lemma poll_tick_reloaded_world
      (go : GoLib) (p : Poller) (w : World) (st : Store)
      (finfo : FileInfo) (vals : list Item) :
  Stat (fs w) (poll_filename p) = Ok finfo ->
  ModTime finfo > poll_last p ->
  readFile go (fs w) (poll_filename p) (poll_fn p) = Ok vals ->
  stores w !! poll_store p = Some st ->
  poll_tick go p w
  = Done ({| poll_store := poll_store p; poll_filename := poll_filename p;
             poll_fn := poll_fn p; poll_inmem := poll_inmem p;
             poll_last := ModTime finfo |}, Reloaded)
         (set_chans (foldl try_send (chans w) (watchers st))
            (set_inmems (<[poll_inmem p := {| items := vals |}]> (inmems w)) w)).
Proof.
  intros Hstat Hnew Hread Hs.
  unfold poll_tick. rewrite (bind_done get _ w w w eq_refl), Hstat.
  replace (ModTime finfo >? poll_last p) with true by (symmetry; lia).
  rewrite Hread.
  erewrite bind_done; [| reflexivity].
  erewrite bind_done; [| apply (NotifyWatchers_sends _ _ st); exact Hs].
  reflexivity.
Qed.

(** X22. [Clear] does not stop a refresh goroutine: after a file was loaded
    with refresh and the store was cleared, the store has no provider, yet
    the next iteration that finds the file modified still reads it, replaces
    the items of the provider that is no longer registered, and sends to
    the watchers of the store. *)
Theorem refresh_outlives_Clear
        (go : GoLib) (w : World) (st0 : Store) (filename : string)
        (fn : option (string -> result (list Item))) (vals vals' : list Item)
        (fsys' : FS) (finfo : FileInfo) :
  filename <> EmptyString ->
  readFile go (fs w) filename fn = Ok vals ->
  stores w !! _store = Some st0 ->
  accepts st0 ("file:" +:+ filename) ->
  Stat fsys' filename = Ok finfo ->
  ModTime finfo > now w ->
  readFile go fsys' filename fn = Ok vals' ->
  exists w1 st1 p p' w2,
    (Store_file go _store filename true fn ;;; Store_Clear _store) w = Done _store w1 /\
    stores w1 !! _store = Some st1 /\
    providers st1 = ∅ /\
    watchers st1 = watchers st0 /\
    pollers w1 = pollers w ++ [p] /\
    poll_tick go p (set_fs fsys' w1) = Done (p', Reloaded) w2 /\
    inmems w2 !! poll_inmem p = Some {| items := vals' |} /\
    (exists st2, stores w2 !! _store = Some st2 /\ providers st2 = ∅) /\
    (forall ch c,
        ch ∈ watchers st0 -> chans w !! ch = Some c -> chan_cap c = 1%nat ->
        chans w2 !! ch = Some {| chan_cap := 1; chan_len := Nat.max 1 (chan_len c) |}).
Proof.
  intros Hne Hread Hs Hfree Hstat Hnew Hread'.
  erewrite bind_done;
    [| apply (file_loads_in_default_store go w _store st0 filename true fn vals
                Hne Hread Hs Hfree)].
  erewrite Clear_resets; [| cbn; apply lookup_insert_eq].
  set (p := {| poll_store := _store; poll_filename := filename; poll_fn := fn;
               poll_inmem := fresh (dom (inmems w)); poll_last := now w |}).
  eexists. eexists. exists p. eexists. eexists.
  split; [reflexivity |].
  split; [cbn; apply lookup_insert_eq |].
  split; [reflexivity |]. split; [reflexivity |]. split; [reflexivity |].
  split.
  { eapply (poll_tick_reloaded_world go p);
      [exact Hstat | exact Hnew | exact Hread' | cbn; apply lookup_insert_eq]. }
  cbn. split; [apply lookup_insert_eq |].
  split; [eexists; split; [apply lookup_insert_eq | reflexivity] |].
  intros ch c Hin Hch Hcap.
  rewrite (foldl_try_send_cap1 _ _ _ c Hch Hcap).
  rewrite bool_decide_eq_true_2 by exact Hin. reflexivity.
Qed.

Lemma refresh_outlives_Clear_witness :
  (readFile example_go app_fs_loaded app_file (Some raw_item) = Ok [NewItem "app" "old" 1] /\
   stores (watched_world app_fs_loaded) !! _store = Some watched_store /\
   readFile example_go app_fs_readable app_file (Some raw_item)
   = Ok [NewItem "app" "new" 1]) /\
  exists w1 st1 p p' w2,
    (Store_file example_go _store app_file true (Some raw_item) ;;; Store_Clear _store)
      (watched_world app_fs_loaded) = Done _store w1 /\
    stores w1 !! _store = Some st1 /\
    providers st1 = ∅ /\
    poll_tick example_go p (set_fs app_fs_readable w1) = Done (p', Reloaded) w2 /\
    inmems w2 !! poll_inmem p = Some {| items := [NewItem "app" "new" 1] |} /\
    chans w2 !! 0%nat = Some {| chan_cap := 1; chan_len := 1 |}.
Proof.
  split; [repeat split; reflexivity |].
  destruct (refresh_outlives_Clear
              example_go (watched_world app_fs_loaded) watched_store app_file
              (Some raw_item) [NewItem "app" "old" 1] [NewItem "app" "new" 1]
              app_fs_readable {| Name := app_file; IsDir := false; ModTime := 20 |}
              ltac:(discriminate) eq_refl eq_refl (or_introl eq_refl) eq_refl
              ltac:(cbn; lia) eq_refl)
    as (w1 & st1 & p & p' & w2 & Hrun & Hst & Hprov & _ & _ & Htick & Hitems & _ & Hch).
  exists w1, st1, p, p', w2. repeat (split; [assumption |]).
  apply (Hch 0%nat {| chan_cap := 1; chan_len := 0 |});
    [apply list_elem_of_here | reflexivity | reflexivity].
Defined.
